(** * The data model of the blog application (app/models.py)

    A shallow embedding of [Permission], [Role], [User], [AnonymousUser]
    and [Post], together with the part of the storage session and of the
    libraries (token serializer, password hashing, MD5) that the methods
    call, followed by the properties of these methods. *)

From Stdlib Require Import ZArith List String Ascii Bool Lia DecimalString QArith
  Permutation DecimalPos DecimalN.
Import ListNotations.
Close Scope Q_scope.
Open Scope string_scope.
Open Scope list_scope.
Open Scope Z_scope.

(** ** Python results

    A call either returns a value or raises.  Only the exceptions that the
    modelled code can meet are listed. *)

Inductive exn : Type :=
| TypeError
| AttributeError
| IntegrityError
| BadSignature
| SignatureExpired.

Inductive result (A : Type) : Type :=
| Return (a : A)
| Raise (e : exn).

Arguments Return {A} a.
Arguments Raise {A} e.

Definition bind {A B : Type} (m : result A) (k : A -> result B) : result B :=
  match m with
  | Return a => k a
  | Raise e => Raise e
  end.

Notation "x <- m ;; k" := (bind m (fun x => k))
  (at level 61, m at next level, right associativity).

(** [for x in xs: body] over a state that every iteration may fail on. *)
Fixpoint for_each {A S : Type} (xs : list A) (body : A -> S -> result S)
  (s : S) : result S :=
  match xs with
  | [] => Return s
  | x :: xs' => s' <- body x s ;; for_each xs' body s'
  end.

(** ** Permission *)

Module Permission.
Definition FOLLOW : Z := 0x01.
Definition COMMENT : Z := 0x02.
Definition WRITE_ARTICLES : Z := 0x04.
Definition MODERATE_COMMENTS : Z := 0x08.
Definition ADMINISTRATOR : Z := 0xff.

(** The constants the class defines. *)
Definition all : list Z :=
  [FOLLOW; COMMENT; WRITE_ARTICLES; MODERATE_COMMENTS; ADMINISTRATOR].
End Permission.

(** ** Rows

    Every column is nullable in Python (an attribute that was never set
    reads [None]), hence the options.  Python integers are unbounded, so
    [Z] is exact. *)

Record Role : Type := mkRole {
  Role_id : option Z;
  Role_name : option string;
  Role_default : option bool;
  Role_permissions : option Z
}.

Record User : Type := mkUser {
  User_id : option Z;
  User_username : option string;
  User_email : option string;
  User_role_id : option Z;
  User_password_hash : option string;
  User_confirmed : option bool;
  User_name : option string;
  User_location : option string;
  User_about_me : option string;
  User_member_since : option Z;
  User_last_seen : option Z;
  User_itsrole : option Role
}.

(** ** The storage session ([db.session])

    [roles] is the table as the running transaction sees it (the session
    flushes before each query), [committed_roles] the table as of the last
    commit.  Of the table [users], [staged] holds the rows that the running
    transaction has written and [saved] the other rows; a commit makes
    them all [saved]. *)

Record Session : Type := mkSession {
  roles : list Role;
  committed_roles : list Role;
  staged : list User;
  saved : list User
}.

Definition opt_Z_eqb (a b : option Z) : bool :=
  match a, b with
  | Some x, Some y => x =? y
  | None, None => true
  | _, _ => false
  end.

(** SQL comparison [column = value]: never true on NULL. *)
Definition name_is (n : string) (r : Role) : bool :=
  match Role_name r with
  | Some m => String.eqb m n
  | None => false
  end.

Definition permissions_is (p : Z) (r : Role) : bool :=
  match Role_permissions r with
  | Some q => q =? p
  | None => false
  end.

Definition default_is_true (r : Role) : bool :=
  match Role_default r with
  | Some b => b
  | None => false
  end.

(** [Role.query.filter_by(...).first()] *)
Definition query_first (crit : Role -> bool) (s : Session) : option Role :=
  find crit (roles s).

Definition row_id (r : Role) : Z :=
  match Role_id r with
  | Some i => i
  | None => 0
  end.

(** The key an INSERT assigns: one more than the largest key in use. *)
Definition fresh_id (tbl : list Role) : Z :=
  1 + fold_right Z.max 0 (map row_id tbl).

(** [db.session.add(role)], with the flush that the next query or the
    commit performs.  An object without a key is INSERTed: the unique
    constraint on [name] is checked, the key is assigned and the column
    default of [default] is applied.  An object with a key is one a query
    returned: its row is UPDATEd in place. *)
Definition session_add_role (r : Role) (s : Session) : result Session :=
  match Role_id r with
  | None =>
      if match Role_name r with
         | Some n => existsb (name_is n) (roles s)
         | None => false
         end
      then Raise IntegrityError
      else
        let row := mkRole (Some (fresh_id (roles s))) (Role_name r)
                          (match Role_default r with
                           | Some b => Some b
                           | None => Some false
                           end)
                          (Role_permissions r) in
        Return (mkSession (roles s ++ [row]) (committed_roles s)
                          (staged s) (saved s))
  | Some i =>
      Return (mkSession
                (map (fun x => if opt_Z_eqb (Role_id x) (Some i) then r else x)
                     (roles s))
                (committed_roles s) (staged s) (saved s))
  end.

(** The rows of [users] that the running transaction sees. *)
Definition users (s : Session) : list User := staged s ++ saved s.

Definition has_id (i : Z) (u : User) : bool := opt_Z_eqb (User_id u) (Some i).

Definition user_row_id (u : User) : Z :=
  match User_id u with
  | Some i => i
  | None => 0
  end.

Definition fresh_user_id (rows : list User) : Z :=
  1 + fold_right Z.max 0 (map user_row_id rows).

Definition email_is (e : string) (u : User) : bool :=
  match User_email u with
  | Some m => String.eqb m e
  | None => false
  end.

(** The unique constraint on [email] (line 56): a row other than the one
    of key [key] bears the email [e].  Nulls never clash. *)
Definition email_taken (e : option string) (key : Z) (rows : list User)
  : bool :=
  match e with
  | Some e => existsb (fun r => email_is e r && negb (has_id key r)) rows
  | None => false
  end.

(** A column default: applied by an INSERT to an attribute left unset. *)
Definition or_default {A : Type} (v : option A) (d : A) : option A :=
  match v with
  | Some x => Some x
  | None => Some d
  end.

(** The object has a key and the table has a row with that key: the
    object came from the table and the flush UPDATEs its row. *)
Definition stored (u : User) (s : Session) : bool :=
  match User_id u with
  | Some i => existsb (has_id i) (users s)
  | None => false
  end.

(** The key of the row that a flush of [u] writes. *)
Definition key_for (u : User) (s : Session) : Z :=
  match User_id u with
  | Some i => i
  | None => fresh_user_id (users s)
  end.

Definition other_rows (key : Z) (rows : list User) : list User :=
  filter (fun r => negb (has_id key r)) rows.

(** The save-update cascade of the relationship [itsrole]: a role
    without a key is INSERTed before the user; a role with a key is a row
    of the table and is left as it is.  Returns the role as the table has
    it. *)
Definition flush_itsrole (r : option Role) (s : Session)
  : result (option Role * Session) :=
  match r with
  | None => Return (None, s)
  | Some role =>
      match Role_id role with
      | Some _ => Return (Some role, s)
      | None =>
          s' <- session_add_role role s ;;
          Return (Some (last (roles s') role), s')
      end
  end.

(** [db.session.add(user)], with the flush that the commit performs, at
    time [now].  The role is flushed first and the foreign key [role_id]
    follows it (an object without role keeps the key it has).  A [stored]
    object has its row UPDATEd with the attributes as they are; any other
    object is INSERTed: a missing key is assigned and the column defaults
    of [confirmed], [member_since] and [last_seen] (lines 59, 63 and 64)
    fill the attributes left unset.  Either statement fails on an
    [email] that another row bears.  Returns the object as the table has
    it, which is what its attributes read after the commit. *)
Definition session_add_user (now : Z) (u : User) (s : Session)
  : result (User * Session) :=
  rs <- flush_itsrole (User_itsrole u) s ;;
  let itsrole := fst rs in
  let s := snd rs in
  let key := key_for u s in
  if email_taken (User_email u) key (users s) then Raise IntegrityError
  else
    let insert := negb (stored u s) in
    let row :=
      mkUser (Some key) (User_username u) (User_email u)
             (match itsrole with
              | Some r => Role_id r
              | None => User_role_id u
              end)
             (User_password_hash u)
             (if insert then or_default (User_confirmed u) false
              else User_confirmed u)
             (User_name u) (User_location u) (User_about_me u)
             (if insert then or_default (User_member_since u) now
              else User_member_since u)
             (if insert then or_default (User_last_seen u) now
              else User_last_seen u)
             itsrole in
    Return (row, mkSession (roles s) (committed_roles s)
                           (row :: other_rows key (staged s))
                           (other_rows key (saved s))).

(** [db.session.commit()] *)
Definition session_commit (s : Session) : Session :=
  mkSession (roles s) (roles s) [] (staged s ++ saved s).

(** ** What a write to the table [users] keeps

    [kept u v]: the row [v] has the profile of the object [u] and every
    attribute among [id], [confirmed], [member_since] and [last_seen]
    that [u] had set. *)

Definition kept (u v : User) : Prop :=
  User_username v = User_username u
  /\ User_email v = User_email u
  /\ User_password_hash v = User_password_hash u
  /\ User_name v = User_name u
  /\ User_location v = User_location u
  /\ User_about_me v = User_about_me u
  /\ (User_id u <> None -> User_id v = User_id u)
  /\ (User_confirmed u <> None -> User_confirmed v = User_confirmed u)
  /\ (User_member_since u <> None -> User_member_since v = User_member_since u)
  /\ (User_last_seen u <> None -> User_last_seen v = User_last_seen u).

(** The foreign key [role_id] agrees with the role object. *)
Definition linked (u : User) : bool :=
  match User_itsrole u with
  | None => true
  | Some r =>
      match Role_id r with
      | Some j => opt_Z_eqb (User_role_id u) (Some j)
      | None => false
      end
  end.

(** No unique constraint stands in the way of writing [u]: no other row
    bears its email and, when its role is yet to be inserted, no row of
    [roles] bears the name of that role. *)
Definition writable (u : User) (s : Session) : bool :=
  negb (email_taken (User_email u) (key_for u s) (users s))
  && match User_itsrole u with
     | Some r =>
         match Role_id r, Role_name r with
         | None, Some n => negb (existsb (name_is n) (roles s))
         | _, _ => true
         end
     | None => true
     end.

(** ** Role *)

Module Role.

(** The dictionary [roles] of [insert_roles], in the order it is written. *)
Definition roles_spec : list (string * (Z * bool)) :=
  [ ("User",
     (Z.lor (Z.lor Permission.FOLLOW Permission.COMMENT)
            Permission.WRITE_ARTICLES, true));
    ("Moderare",
     (Z.lor (Z.lor (Z.lor Permission.FOLLOW Permission.COMMENT)
                   Permission.WRITE_ARTICLES)
            Permission.MODERATE_COMMENTS, false));
    ("Administrator", (0xff, false)) ].

(** [Role(name=r)] *)
Definition new (r : string) : Role := mkRole None (Some r) None None.

(** One iteration of the loop of [insert_roles]. *)
Definition insert_role (entry : string * (Z * bool)) (s : Session)
  : result Session :=
  let r := fst entry in
  let role := match query_first (name_is r) s with
              | None => new r
              | Some role => role
              end in
  let role := mkRole (Role_id role) (Role_name role) (Role_default role)
                     (Some (fst (snd entry))) in
  let role := mkRole (Role_id role) (Role_name role) (Some (snd (snd entry)))
                     (Role_permissions role) in
  session_add_role role s.

(** The loop over an arbitrary dictionary, then the commit. *)
Definition insert_roles_from (spec : list (string * (Z * bool)))
  (s : Session) : result Session :=
  s' <- for_each spec insert_role s ;;
  Return (session_commit s').

Definition insert_roles (s : Session) : result Session :=
  insert_roles_from roles_spec s.

Definition seed (s : Session) : result Session :=
  s' <- for_each (map new ["Guests"; "Administrator"]) session_add_role s ;;
  Return (session_commit s').

End Role.

(** [insert_roles] run [n] times in a row. *)
Fixpoint insert_roles_times (n : nat) (s : Session) : result Session :=
  match n with
  | O => Return s
  | S n' => s' <- Role.insert_roles s ;; insert_roles_times n' s'
  end.

(** The number of roles flagged as the default one. *)
Definition count_default (tbl : list Role) : nat :=
  List.length (filter default_is_true tbl).

(** ** MD5 ([hashlib.md5], RFC 1321)

    Bytes and 32-bit words are integers; every addition is reduced modulo
    2^32.  A [string] stands for the UTF-8 bytes of the Python text, so
    [encode('utf-8')] is the list of its characters' codes. *)

Module MD5.

Definition mask32 : Z := 0xffffffff.
Definition add32 (x y : Z) : Z := Z.land (x + y) mask32.
Definition not32 (x : Z) : Z := Z.lxor x mask32.
Definition rotl32 (x c : Z) : Z :=
  Z.land (Z.lor (Z.shiftl x c) (Z.shiftr x (32 - c))) mask32.

Definition K : list Z :=
  [ 0xd76aa478; 0xe8c7b756; 0x242070db; 0xc1bdceee;
    0xf57c0faf; 0x4787c62a; 0xa8304613; 0xfd469501;
    0x698098d8; 0x8b44f7af; 0xffff5bb1; 0x895cd7be;
    0x6b901122; 0xfd987193; 0xa679438e; 0x49b40821;
    0xf61e2562; 0xc040b340; 0x265e5a51; 0xe9b6c7aa;
    0xd62f105d; 0x02441453; 0xd8a1e681; 0xe7d3fbc8;
    0x21e1cde6; 0xc33707d6; 0xf4d50d87; 0x455a14ed;
    0xa9e3e905; 0xfcefa3f8; 0x676f02d9; 0x8d2a4c8a;
    0xfffa3942; 0x8771f681; 0x6d9d6122; 0xfde5380c;
    0xa4beea44; 0x4bdecfa9; 0xf6bb4b60; 0xbebfbc70;
    0x289b7ec6; 0xeaa127fa; 0xd4ef3085; 0x04881d05;
    0xd9d4d039; 0xe6db99e5; 0x1fa27cf8; 0xc4ac5665;
    0xf4292244; 0x432aff97; 0xab9423a7; 0xfc93a039;
    0x655b59c3; 0x8f0ccc92; 0xffeff47d; 0x85845dd1;
    0x6fa87e4f; 0xfe2ce6e0; 0xa3014314; 0x4e0811a1;
    0xf7537e82; 0xbd3af235; 0x2ad7d2bb; 0xeb86d391 ].

Definition shifts : list Z :=
  [ 7; 12; 17; 22; 7; 12; 17; 22; 7; 12; 17; 22; 7; 12; 17; 22;
    5; 9; 14; 20; 5; 9; 14; 20; 5; 9; 14; 20; 5; 9; 14; 20;
    4; 11; 16; 23; 4; 11; 16; 23; 4; 11; 16; 23; 4; 11; 16; 23;
    6; 10; 15; 21; 6; 10; 15; 21; 6; 10; 15; 21; 6; 10; 15; 21 ].

Definition state : Type := (Z * Z * Z * Z)%type.

Definition init : state := (0x67452301, 0xefcdab89, 0x98badcfe, 0x10325476).

(** Operation [i] (0 to 63) of the compression function on the sixteen
    words [m] of a block. *)
Definition step (m : list Z) (st : state) (i : nat) : state :=
  let '(a, b, c, d) := st in
  let iz := Z.of_nat i in
  let '(f, g) :=
    if iz <? 16 then (Z.lor (Z.land b c) (Z.land (not32 b) d), iz)
    else if iz <? 32 then
      (Z.lor (Z.land d b) (Z.land (not32 d) c), (5 * iz + 1) mod 16)
    else if iz <? 48 then (Z.lxor (Z.lxor b c) d, (3 * iz + 5) mod 16)
    else (Z.lxor c (Z.lor b (not32 d)), (7 * iz) mod 16) in
  let f := add32 (add32 (add32 f a) (nth i K 0)) (nth (Z.to_nat g) m 0) in
  (d, add32 b (rotl32 f (nth i shifts 0)), b, c).

Definition compress (st : state) (m : list Z) : state :=
  let '(a0, b0, c0, d0) := st in
  let '(a, b, c, d) := fold_left (step m) (seq 0 64) st in
  (add32 a0 a, add32 b0 b, add32 c0 c, add32 d0 d).

(** [n] bytes of [x], least significant first. *)
Fixpoint le_bytes (n : nat) (x : Z) : list Z :=
  match n with
  | O => []
  | S n' => Z.land x 0xff :: le_bytes n' (Z.shiftr x 8)
  end.

Fixpoint le_word (bs : list Z) : Z :=
  match bs with
  | [] => 0
  | b :: bs' => b + 256 * le_word bs'
  end.

(** The message, a 1 bit, zeros up to 56 modulo 64, and the bit length. *)
Definition pad (msg : list Z) : list Z :=
  let len := Z.of_nat (List.length msg) in
  let zeros := Z.to_nat ((55 - len) mod 64) in
  msg ++ [0x80] ++ repeat 0 zeros
      ++ le_bytes 8 (Z.land (8 * len) 0xffffffffffffffff).

(** Cuts a list into [n] pieces of [k] elements. *)
Fixpoint chunks {A : Type} (n k : nat) (l : list A) : list (list A) :=
  match n with
  | O => []
  | S n' => firstn k l :: chunks n' k (skipn k l)
  end.

Definition words (block : list Z) : list Z :=
  map le_word (chunks 16 4 block).

Definition digest (msg : list Z) : list Z :=
  let p := pad msg in
  let blocks := chunks (List.length p / 64) 64 p in
  let '(a, b, c, d) := fold_left compress (map words blocks) init in
  le_bytes 4 a ++ le_bytes 4 b ++ le_bytes 4 c ++ le_bytes 4 d.

Definition hex_digit (n : Z) : ascii :=
  nth (Z.to_nat n)
      (list_ascii_of_string "0123456789abcdef") "0"%char.

Fixpoint hex (bs : list Z) : string :=
  match bs with
  | [] => EmptyString
  | b :: bs' => String (hex_digit (Z.shiftr b 4))
                       (String (hex_digit (Z.land b 0xf)) (hex bs'))
  end.

Definition bytes_of_string (s : string) : list Z :=
  map (fun c => Z.of_N (N_of_ascii c)) (list_ascii_of_string s).

(** [hashlib.md5(s).hexdigest()] *)
Definition hexdigest (s : string) : string := hex (digest (bytes_of_string s)).

End MD5.

(** ** SHA-256, HMAC and PBKDF2 ([hashlib.pbkdf2_hmac])

    FIPS 180-4, RFC 2104 and RFC 8018, on the bytes and 32-bit words of
    the previous module. *)

Module SHA256.

Definition rotr32 (x c : Z) : Z :=
  Z.land (Z.lor (Z.shiftr x c) (Z.shiftl x (32 - c))) MD5.mask32.

(** The constants are the first 32 bits of the fractional parts of the
    cube roots (for [K]) and of the square roots (for [init]) of the first
    primes. *)
Definition is_prime (n : Z) : bool :=
  forallb (fun d => negb (n mod Z.of_nat d =? 0)) (seq 2 (Z.to_nat n - 2)).

(** The primes up to 311: there are 64 of them. *)
Definition primes : list Z := filter is_prime (map Z.of_nat (seq 2 310)).

(** The largest [r] below 2^40 with [r ^ k <= n]. *)
Definition root (k n : Z) : Z :=
  fold_left (fun r b => let r' := r + 2 ^ Z.of_nat b in
                        if r' ^ k <=? n then r' else r)
            (rev (seq 0 40)) 0.

Definition fraction_bits (k p : Z) : Z :=
  root k (p * 2 ^ (32 * k)) mod 2 ^ 32.

Definition K : list Z := Eval vm_compute in map (fraction_bits 3) primes.

Definition state : Type := (Z * Z * Z * Z * Z * Z * Z * Z)%type.

Definition init : state := Eval vm_compute in
    match map (fraction_bits 2) (firstn 8 primes) with
    | [a; b; c; d; e; f; g; h] => (a, b, c, d, e, f, g, h)
    | _ => (0, 0, 0, 0, 0, 0, 0, 0)
    end.

Definition xor3 (x y z : Z) : Z := Z.lxor (Z.lxor x y) z.

Definition small0 (x : Z) : Z := xor3 (rotr32 x 7) (rotr32 x 18) (Z.shiftr x 3).
Definition small1 (x : Z) : Z := xor3 (rotr32 x 17) (rotr32 x 19) (Z.shiftr x 10).
Definition big0 (x : Z) : Z := xor3 (rotr32 x 2) (rotr32 x 13) (rotr32 x 22).
Definition big1 (x : Z) : Z := xor3 (rotr32 x 6) (rotr32 x 11) (rotr32 x 25).

(** Word [i] (16 to 63) of the message schedule, appended to the words
    before it. *)
Definition extend (w : list Z) (i : nat) : list Z :=
  w ++ [MD5.add32
          (MD5.add32 (small1 (nth (i - 2) w 0)) (nth (i - 7) w 0))
          (MD5.add32 (small0 (nth (i - 15) w 0)) (nth (i - 16) w 0))].

Definition schedule (m : list Z) : list Z := fold_left extend (seq 16 48) m.

Definition round (w : list Z) (st : state) (i : nat) : state :=
  let '(a, b, c, d, e, f, g, h) := st in
  let ch := Z.lxor (Z.land e f) (Z.land (MD5.not32 e) g) in
  let maj := xor3 (Z.land a b) (Z.land a c) (Z.land b c) in
  let t1 := MD5.add32 (MD5.add32 (MD5.add32 (MD5.add32 h (big1 e)) ch)
                                 (nth i K 0))
                      (nth i w 0) in
  let t2 := MD5.add32 (big0 a) maj in
  (MD5.add32 t1 t2, a, b, c, MD5.add32 d t1, e, f, g).

Definition compress (st : state) (m : list Z) : state :=
  let '(a0, b0, c0, d0, e0, f0, g0, h0) := st in
  let '(a, b, c, d, e, f, g, h) :=
    fold_left (round (schedule m)) (seq 0 64) st in
  (MD5.add32 a0 a, MD5.add32 b0 b, MD5.add32 c0 c, MD5.add32 d0 d,
   MD5.add32 e0 e, MD5.add32 f0 f, MD5.add32 g0 g, MD5.add32 h0 h).

(** [n] bytes of [x], most significant first. *)
Fixpoint be_bytes (n : nat) (x : Z) : list Z :=
  match n with
  | O => []
  | S n' => Z.land (Z.shiftr x (8 * Z.of_nat n')) 0xff :: be_bytes n' x
  end.

Definition be_word (bs : list Z) : Z :=
  fold_left (fun acc b => 256 * acc + b) bs 0.

Definition pad (msg : list Z) : list Z :=
  let len := Z.of_nat (List.length msg) in
  let zeros := Z.to_nat ((55 - len) mod 64) in
  msg ++ [0x80] ++ repeat 0 zeros
      ++ be_bytes 8 (Z.land (8 * len) 0xffffffffffffffff).

Definition words (block : list Z) : list Z :=
  map be_word (MD5.chunks 16 4 block).

Definition digest (msg : list Z) : list Z :=
  let p := pad msg in
  let blocks := MD5.chunks (List.length p / 64) 64 p in
  let '(a, b, c, d, e, f, g, h) :=
    fold_left compress (map words blocks) init in
  be_bytes 4 a ++ be_bytes 4 b ++ be_bytes 4 c ++ be_bytes 4 d
    ++ be_bytes 4 e ++ be_bytes 4 f ++ be_bytes 4 g ++ be_bytes 4 h.

(** The key as HMAC uses it: hashed when longer than a block of 64
    bytes, then filled with zero bytes up to the block. *)
Definition key_block (key : list Z) : list Z :=
  let k := if Nat.ltb 64 (List.length key) then digest key else key in
  k ++ repeat 0 (64 - List.length k).

Definition hmac_block (kb msg : list Z) : list Z :=
  digest (map (Z.lxor 0x5c) kb ++ digest (map (Z.lxor 0x36) kb ++ msg)).

Definition hmac (key msg : list Z) : list Z := hmac_block (key_block key) msg.

Definition xor_bytes (x y : list Z) : list Z :=
  map (fun p => Z.lxor (fst p) (snd p)) (combine x y).

(** The first block of the derived key, which is all of it at the
    default length of 32 bytes: the exclusive or of [iterations] chained
    HMACs keyed by the password. *)
Definition pbkdf2_block (kb salt : list Z) (iterations : positive) : list Z :=
  let u1 := hmac_block kb (salt ++ be_bytes 4 1) in
  snd (N.iter (Pos.pred_N iterations)
              (fun ut => let u := hmac_block kb (fst ut) in
                         (u, xor_bytes (snd ut) u))
              (u1, u1)).

Definition pbkdf2_hmac (password salt : list Z) (iterations : positive)
  : list Z :=
  pbkdf2_block (key_block password) salt iterations.

End SHA256.

(** ** Decoded token payloads

    What [json] decoding can return.  A finite float is the rational it
    denotes; [PNonFinite] stands for NaN and the infinities.  A dictionary
    is an association list whose first binding of a key is the one in
    force. *)

#[local] Set Warnings "-register-all".

Inductive pyval : Type :=
| PNone
| PBool (b : bool)
| PInt (n : Z)
| PFloat (q : Q)
| PNonFinite
| PStr (s : string)
| PList (l : list pyval)
| PDict (kvs : list (string * pyval)).

Fixpoint assoc (k : string) (kvs : list (string * pyval)) : option pyval :=
  match kvs with
  | [] => None
  | (k', v) :: rest => if String.eqb k' k then Some v else assoc k rest
  end.

(** [data.get(k)]: only a dictionary has the method. *)
Definition py_get (data : pyval) (k : string) : result pyval :=
  match data with
  | PDict kvs =>
      Return (match assoc k kvs with
              | Some v => v
              | None => PNone
              end)
  | _ => Raise AttributeError
  end.

(** [v != i] for an identifier [i] that is [None] or an integer.  Python
    compares numbers by value across [bool], [int] and [float]. *)
Definition py_ne (v : pyval) (i : option Z) : bool :=
  match i, v with
  | None, PNone => false
  | Some n, PInt m => negb (m =? n)
  | Some n, PBool b => negb ((if b then 1 else 0) =? n)
  | Some n, PFloat q => negb (Qeq_bool q (inject_Z n))
  | _, _ => true
  end.

Definition id_to_py (i : option Z) : pyval :=
  match i with
  | Some n => PInt n
  | None => PNone
  end.

(** The payload [{'confirm': i}]. *)
Definition confirm_payload (i : option Z) : pyval :=
  PDict [("confirm", id_to_py i)].

(** ** The libraries behind the tokens and the password hashes

    [TimedJSONWebSignatureSerializer]: [dumps key expires_in now payload]
    signs at time [now]; [loads key now token] verifies at time [now].  The
    laws are the ones the library documents: a token is never read back
    as another payload than the one it was made from; read with the key
    that signed it, it yields that payload until its expiry time, provided
    that this time is a positive date; afterwards it is refused. *)

Class Serializer : Type := {
  token : Type;
  dumps : string -> Z -> Z -> pyval -> token;
  loads : string -> Z -> token -> result pyval;
  loads_dumps_only : forall key key' expires_in iat now i data,
    loads key' now (dumps key expires_in iat (confirm_payload i))
    = Return data ->
    data = confirm_payload i;
  loads_dumps : forall key expires_in iat now i,
    0 < iat + expires_in ->
    now <= iat + expires_in ->
    loads key now (dumps key expires_in iat (confirm_payload i))
    = Return (confirm_payload i);
  loads_expired : forall key expires_in iat now p,
    iat + expires_in < now ->
    exists e, loads key now (dumps key expires_in iat p) = Raise e
}.

(** [werkzeug.security]: the random choices that [generate_password_hash]
    makes for the salt are an argument here. *)

Class PasswordHasher : Type := {
  generate_password_hash : string -> string -> string;
  check_password_hash : string -> string -> bool
}.

(** [current_app.config] *)
Record Config : Type := mkConfig {
  SECRET_KEY : string;
  FLASK_ADMIN : option string
}.

Definition opt_string_eqb (a b : option string) : bool :=
  match a, b with
  | Some x, Some y => String.eqb x y
  | None, None => true
  | _, _ => false
  end.

(** [str(n)] of an integer. *)
Definition str_of_Z (n : Z) : string := NilZero.string_of_int (Z.to_int n).

(** ** User *)

Module User.

(** [self.confirmed = v] and the like. *)
Definition set_itsrole (r : option Role) (u : User) : User :=
  mkUser (User_id u) (User_username u) (User_email u) (User_role_id u)
         (User_password_hash u) (User_confirmed u) (User_name u)
         (User_location u) (User_about_me u) (User_member_since u)
         (User_last_seen u) r.

Definition set_password_hash (h : option string) (u : User) : User :=
  mkUser (User_id u) (User_username u) (User_email u) (User_role_id u)
         h (User_confirmed u) (User_name u)
         (User_location u) (User_about_me u) (User_member_since u)
         (User_last_seen u) (User_itsrole u).

Definition set_confirmed (c : option bool) (u : User) : User :=
  mkUser (User_id u) (User_username u) (User_email u) (User_role_id u)
         (User_password_hash u) c (User_name u)
         (User_location u) (User_about_me u) (User_member_since u)
         (User_last_seen u) (User_itsrole u).


(** [__init__], from the object [self] that the base constructor has
    filled with the keyword arguments. *)
Definition init (config : Config) (s : Session) (self : User) : User :=
  match User_itsrole self with
  | None =>
      if opt_string_eqb (User_email self) (FLASK_ADMIN config)
      then set_itsrole (query_first (permissions_is 0xff) s) self
      else set_itsrole (query_first default_is_true s) self
  | Some _ => self
  end.

(** [a and b] stops at a false [a]; [&] on [None] is a [TypeError]. *)
Definition can (self : User) (permissions : Z) : result bool :=
  match User_itsrole self with
  | None => Return false
  | Some itsrole =>
      match Role_permissions itsrole with
      | None => Raise TypeError
      | Some mask => Return (Z.land mask permissions =? permissions)
      end
  end.

Definition is_administrator (self : User) : result bool :=
  can self Permission.ADMINISTRATOR.


Definition gravatar_url (url hash : string) (size : Z)
  (rating default : string) : string :=
  url ++ "/" ++ hash ++ "?s=" ++ str_of_Z size ++ "&r=" ++ rating
      ++ "&d=" ++ default.

(** [is_secure] is [request.is_secure].  [None] has no [encode]. *)
Definition gravatar (is_secure : bool) (self : User) (size : Z)
  (default rating : string) : result string :=
  let url := if is_secure then "https://secure.gravatar.com/avatar"
             else "http://www.gravatar.com/avatar" in
  match User_email self with
  | None => Raise AttributeError
  | Some email =>
      let hash := MD5.hexdigest email in
      Return (gravatar_url url hash size rating default)
  end.

(** The getter of the property [password]. *)
Definition password (self : User) : result string := Raise AttributeError.

Section Hashing.
Context {hasher : PasswordHasher}.

(** The setter of the property [password]; [salt] stands for the random
    choices that [generate_password_hash] makes for the salt. *)
Definition password_setter (salt : string) (self : User)
  (password : string) : User :=
  set_password_hash (Some (generate_password_hash salt password)) self.

(** [check_password_hash] calls a method of its first argument. *)
Definition verify_password (self : User) (password : string)
  : result bool :=
  match User_password_hash self with
  | None => Raise AttributeError
  | Some pwhash => Return (check_password_hash pwhash password)
  end.
End Hashing.

Section Tokens.
Context {serializer : Serializer}.

Definition generate_confirm_token (config : Config) (now : Z)
  (self : User) (expiration : Z) : token :=
  dumps (SECRET_KEY config) expiration now (confirm_payload (User_id self)).

(** Returns the answer, the object and the session.  The bare
    [except] turns every error of [loads] into [False]; an error of
    [data.get] or of the commit is not caught. *)
Definition confirm (config : Config) (now : Z) (self : User) (t : token)
  (s : Session) : result (bool * User * Session) :=
  match loads (SECRET_KEY config) now t with
  | Raise _ => Return (false, self, s)
  | Return data =>
      v <- py_get data "confirm" ;;
      if py_ne v (User_id self) then Return (false, self, s)
      else
        let self := set_confirmed (Some true) self in
        us <- session_add_user now self s ;;
        Return (true, fst us, session_commit (snd us))
  end.
End Tokens.

End User.

(** ** AnonymousUser *)

Module AnonymousUser.
Definition can (permissions : Z) : bool := false.
Definition is_administrator : bool := false.
End AnonymousUser.

(** ** Post *)

Record Post : Type := mkPost {
  Post_id : option Z;
  Post_body : option string;
  Post_body_html : option string;
  Post_timestamp : option Z;
  Post_author_id : option Z
}.

Module Post.

Definition allow_tags : list string :=
  ["a"; "abbr"; "acronym"; "b"; "blockquote"; "code";
   "em"; "i"; "li"; "ol"; "pre"; "strong"; "ul";
   "h1"; "h2"; "h3"; "p"].

Section Rendering.
(** [markdown(text, output_format='html')], [bleach.clean(html,
    tags=..., strip=...)] and [bleach.linkify]. *)
Variable markdown : string -> string.
Variable clean : string -> list string -> bool -> string.
Variable linkify : string -> string.

Definition on_body_changed (target : Post) (value : string) : Post :=
  mkPost (Post_id target) (Post_body target)
         (Some (linkify (clean (markdown value) allow_tags true)))
         (Post_timestamp target) (Post_author_id target).
End Rendering.

End Post.

(** ** Reference instances of the libraries

    A serializer whose tokens are terms: a signed token shows its key,
    its expiry time and its payload; anything else is a string that no
    key signed.  An expiry time that is not a positive date is refused
    as a bad header. *)

Inductive sym_token : Type :=
| Garbage (raw : string)
| Signed (key : string) (exp : Z) (payload : pyval).

Definition sym_dumps (key : string) (expires_in now : Z) (p : pyval)
  : sym_token :=
  Signed key (now + expires_in) p.

Definition sym_loads (key : string) (now : Z) (t : sym_token) : result pyval :=
  match t with
  | Garbage _ => Raise BadSignature
  | Signed k exp p =>
      if String.eqb k key
      then if exp <=? 0 then Raise BadSignature
           else if exp <? now then Raise SignatureExpired
           else Return p
      else Raise BadSignature
  end.

Definition sym_serializer : Serializer.
Proof.
  refine {| token := sym_token; dumps := sym_dumps; loads := sym_loads |}.
  - intros key key' expires_in iat now i data. unfold sym_loads, sym_dumps.
    destruct (String.eqb key key'); [| discriminate].
    destruct (iat + expires_in <=? 0); [discriminate |].
    destruct (iat + expires_in <? now); [discriminate |]. congruence.
  - intros key expires_in iat now i Hpos Hle. unfold sym_loads, sym_dumps.
    rewrite String.eqb_refl.
    destruct (Z.leb_spec (iat + expires_in) 0) as [Hneg | _]; [lia |].
    destruct (Z.ltb_spec (iat + expires_in) now) as [Hlt | _]; [lia | reflexivity].
  - intros key expires_in iat now p Hlt. unfold sym_loads, sym_dumps.
    rewrite String.eqb_refl.
    destruct (iat + expires_in <=? 0); [now exists BadSignature |].
    destruct (Z.ltb_spec (iat + expires_in) now) as [_ | Hge]; [| lia].
    now exists SignatureExpired.
Defined.

(** [werkzeug.security] with its default method, [pbkdf2:sha256]; the
    number of iterations is the constant of the installed version.  A
    hash reads [method$salt$hexdigest]. *)

Definition SALT_CHARS : string :=
  "abcdefghijklmnopqrstuvwxyzABCDEFGHIJKLMNOPQRSTUVWXYZ0123456789".

(** [gen_salt]: every character of [draws] stands for one random choice,
    the character of [SALT_CHARS] at its code modulo 62. *)
Fixpoint gen_salt (draws : string) : string :=
  match draws with
  | EmptyString => EmptyString
  | String c rest =>
      String (nth (nat_of_ascii c mod 62) (list_ascii_of_string SALT_CHARS)
                  "a"%char)
             (gen_salt rest)
  end.

(** [pbkdf2_hex] *)
Definition pbkdf2_hex (password salt : string) (iterations : positive)
  : string :=
  MD5.hex (SHA256.pbkdf2_hmac (MD5.bytes_of_string password)
                              (MD5.bytes_of_string salt) iterations).

(** ['%d' % n] *)
Definition decimal (n : N) : string := NilZero.string_of_uint (N.to_uint n).

Definition werkzeug_generate (iterations : positive) (draws password : string)
  : string :=
  let salt := gen_salt draws in
  "pbkdf2:sha256:" ++ decimal (Npos iterations) ++ "$" ++ salt ++ "$"
    ++ pbkdf2_hex password salt iterations.

(** [s.split(c, 1)] when [c] occurs in [s]. *)
Fixpoint split_first (c : ascii) (s : string) : option (string * string) :=
  match s with
  | EmptyString => None
  | String a rest =>
      if Ascii.eqb a c then Some (EmptyString, rest)
      else match split_first c rest with
           | Some (l, r) => Some (String a l, r)
           | None => None
           end
  end.

Fixpoint strip_prefix (p s : string) : option string :=
  match p, s with
  | EmptyString, _ => Some s
  | String a p', String b s' =>
      if Ascii.eqb a b then strip_prefix p' s' else None
  | String _ _, EmptyString => None
  end.

(** The iteration count that a method of the form [pbkdf2:sha256:n]
    names. *)
Definition method_iterations (method : string) : option N :=
  match strip_prefix "pbkdf2:sha256:" method with
  | Some digits =>
      match NilZero.uint_of_string digits with
      | Some d => Some (N.of_uint d)
      | None => None
      end
  | None => None
  end.

(** A text with fewer than two [$] is no hash; otherwise the password is
    hashed with the method and the salt that the hash names and the
    digests are compared.  Only hashes of the default method are
    modelled, which are those that [password_setter] stores: on any other
    method the answer here is [false]. *)
Definition werkzeug_check (pwhash password : string) : bool :=
  match split_first "$" pwhash with
  | Some (method, rest) =>
      match split_first "$" rest with
      | Some (salt, hashval) =>
          match method_iterations method with
          | Some (Npos n) => String.eqb (pbkdf2_hex password salt n) hashval
          | _ => false
          end
      | None => false
      end
  | None => false
  end.

Definition werkzeug (iterations : positive) : PasswordHasher :=
  {| generate_password_hash := werkzeug_generate iterations;
     check_password_hash := werkzeug_check |}.

(** ** Predicates on the role catalog *)

(** The names in use, nulls left out. *)
Definition names (tbl : list Role) : list string :=
  flat_map (fun r => match Role_name r with
                     | Some n => [n]
                     | None => []
                     end) tbl.

(** What the schema enforces on the table: a primary key that is set and
    unique, and names that are unique when they are not null. *)
Definition wf_roles (tbl : list Role) : Prop :=
  (forall r, In r tbl -> Role_id r <> None)
  /\ NoDup (map Role_id tbl)
  /\ NoDup (names tbl).

(** [r] bears one of the names of the dictionary [spec]. *)
Definition listed (spec : list (string * (Z * bool))) (r : Role) : bool :=
  existsb (fun e => name_is (fst e) r) spec.

(** No role outside the three of [insert_roles] is flagged default. *)
Definition no_foreign_default (tbl : list Role) : Prop :=
  forall r, In r tbl -> listed Role.roles_spec r = false ->
            default_is_true r = false.

(** The effect of one iteration of [insert_roles] on the table, as a
    function: the rows of that name are revised, or a row is appended. *)
Definition revise (e : string * (Z * bool)) (x : Role) : Role :=
  if name_is (fst e) x
  then mkRole (Role_id x) (Role_name x) (Some (snd (snd e)))
              (Some (fst (snd e)))
  else x.

Definition upsert (e : string * (Z * bool)) (tbl : list Role) : list Role :=
  if existsb (name_is (fst e)) tbl then map (revise e) tbl
  else tbl ++ [mkRole (Some (fresh_id tbl)) (Some (fst e))
                      (Some (snd (snd e))) (Some (fst (snd e)))].

Definition upsert_all (spec : list (string * (Z * bool))) (tbl : list Role)
  : list Role :=
  fold_left (fun t e => upsert e t) spec tbl.

Definition set_roles (tbl : list Role) (s : Session) : Session :=
  mkSession tbl (committed_roles s) (staged s) (saved s).

(** Every name of [spec] is in [tbl], with the values [spec] gives. *)
Definition settled (spec : list (string * (Z * bool))) (tbl : list Role)
  : Prop :=
  (forall e, In e spec -> existsb (name_is (fst e)) tbl = true)
  /\ (forall e r, In e spec -> In r tbl -> name_is (fst e) r = true ->
                  Role_default r = Some (snd (snd e))
                  /\ Role_permissions r = Some (fst (snd e))).

Definition empty_session : Session := mkSession [] [] [] [].

(** The catalogs that runs of [seed] and [insert_roles] build from an
    empty table. *)
Inductive bootstrapped : Session -> Prop :=
| boot_empty : bootstrapped empty_session
| boot_seed s s' :
    bootstrapped s -> Role.seed s = Return s' -> bootstrapped s'
| boot_insert_roles s s' :
    bootstrapped s -> Role.insert_roles s = Return s' -> bootstrapped s'.

(** ** The lowercase of a text

    [str.lower] on ASCII letters, for the comparison with what [gravatar]
    hashes. *)

Definition ascii_lower (c : ascii) : ascii :=
  let n := nat_of_ascii c in
  if andb (Nat.leb 65 n) (Nat.leb n 90) then ascii_of_nat (n + 32) else c.

Fixpoint lower (s : string) : string :=
  match s with
  | EmptyString => EmptyString
  | String c s' => String (ascii_lower c) (lower s')
  end.

(** ** Sample objects *)

Definition blank_user : User :=
  mkUser None None None None None None None None None None None None.

Definition with_role (r : Role) : User := User.set_itsrole (Some r) blank_user.

Definition with_email (e : string) : User :=
  mkUser None None (Some e) None None None None None None None None None.


Definition user_role : Role :=
  mkRole (Some 1) (Some "User") (Some true) (Some 0x07).

Definition administrator_role : Role :=
  mkRole (Some 3) (Some "Administrator") (Some false) (Some 0xff).

Definition sample_config : Config :=
  mkConfig "secret" (Some "admin@example.com").

Definition sample_session : Session :=
  mkSession [user_role; administrator_role] [user_role; administrator_role]
            [] [].

(** The two roles that [seed] puts in an empty table. *)
Definition seeded_guests : Role :=
  mkRole (Some 1) (Some "Guests") (Some false) None.

Definition seeded_session : Session :=
  let tbl := [seeded_guests;
              mkRole (Some 2) (Some "Administrator") (Some false) None] in
  mkSession tbl tbl [] [].

(** A token that [A] generates at time [t0], valid for an hour. *)
Definition token_of (t0 : Z) (A : User) : sym_token :=
  @User.generate_confirm_token sym_serializer sample_config t0 A 3600.



(** A table with one row, of key 2, and the object of that row. *)
Definition row_2 : User :=
  mkUser (Some 2) None None None None (Some false) None None None
         (Some 10) (Some 10) None.

Definition session_with_2 : Session := mkSession [] [] [] [row_2].

(** The password ['cat\x00']. *)
Definition cat_nul : string := "cat" ++ String zero "".

(** [k] zero bytes. *)
Fixpoint zero_bytes (k : nat) : string :=
  match k with
  | O => EmptyString
  | S k' => String zero (zero_bytes k')
  end.

(** ** Assignment to [Post.body]

    Line 198 registers [on_body_changed] on the [set] event of
    [Post.body]: an assignment [post.body = value] first runs the
    listener with the new value, then stores the value. *)

Definition assign_body (markdown : string -> string)
  (clean : string -> list string -> bool -> string)
  (linkify : string -> string) (target : Post) (value : string) : Post :=
  let target := Post.on_body_changed markdown clean linkify target value in
  mkPost (Post_id target) (Some value) (Post_body_html target)
         (Post_timestamp target) (Post_author_id target).

(** ** What identifies a row of the role table *)

Definition ident (r : Role) : option Z * option string :=
  (Role_id r, Role_name r).

(** The names of [spec] that no row of [tbl] bears. *)
Definition missing (spec : list (string * (Z * bool))) (tbl : list Role)
  : list string :=
  filter (fun n => negb (existsb (name_is n) tbl)) (map fst spec).

(** The characters of a hexadecimal digest. *)
Definition is_hex_digit (c : ascii) : bool :=
  existsb (Ascii.eqb c) (list_ascii_of_string "0123456789abcdef").

(** * Properties *)

(** ** Permission checks *)

Lemma can_with_mask (u : User) (role : Role) (r p : Z) :
  User_itsrole u = Some role ->
  Role_permissions role = Some r ->
  User.can u p = Return (Z.land r p =? p).
Proof.
  intros Hrole Hmask. unfold User.can. now rewrite Hrole, Hmask.
Qed.

(** C1: with a role of mask [r], [can p] returns a boolean that is true
    exactly when [r & p = p]; without a role it returns false; the mask
    0xFF grants every constant of [Permission]. *)
Theorem can_iff_all_bits (u : User) (p : Z) :
  (forall role r,
      User_itsrole u = Some role ->
      Role_permissions role = Some r ->
      exists b, User.can u p = Return b /\ (b = true <-> Z.land r p = p))
  /\ (User_itsrole u = None -> User.can u p = Return false)
  /\ (forall role,
         User_itsrole u = Some role ->
         Role_permissions role = Some 0xff ->
         In p Permission.all ->
         User.can u p = Return true).
Proof.
  split; [| split].
  - intros role r Hrole Hmask. exists (Z.land r p =? p). split.
    + now apply can_with_mask with (role := role).
    + apply Z.eqb_eq.
  - intros Hnone. unfold User.can. now rewrite Hnone.
  - intros role Hrole Hmask Hin.
    rewrite (can_with_mask u role _ p Hrole Hmask).
    simpl in Hin.
    destruct Hin as [<- | [<- | [<- | [<- | [<- | []]]]]]; reflexivity.
Qed.

Lemma can_iff_all_bits_witness :
  (exists b, User.can (with_role administrator_role) Permission.COMMENT
             = Return b
             /\ (b = true <-> Z.land 0xff Permission.COMMENT = Permission.COMMENT))
  /\ User.can blank_user Permission.COMMENT = Return false
  /\ User.can (with_role administrator_role) Permission.COMMENT = Return true.
Proof.
  split; [| split].
  - apply (proj1 (can_iff_all_bits (with_role administrator_role)
                                   Permission.COMMENT)
                 administrator_role 0xff); reflexivity.
  - apply (proj1 (proj2 (can_iff_all_bits blank_user Permission.COMMENT))).
    reflexivity.
  - apply (proj2 (proj2 (can_iff_all_bits (with_role administrator_role)
                                          Permission.COMMENT))
                 administrator_role); [reflexivity | reflexivity |].
    simpl. tauto.
Defined.

Lemma session_add_new_role (n : string) (s : Session) :
  session_add_role (Role.new n) s
  = if existsb (name_is n) (roles s) then Raise IntegrityError
    else Return (mkSession
                   (roles s ++ [mkRole (Some (fresh_id (roles s))) (Some n)
                                       (Some false) None])
                   (committed_roles s) (staged s) (saved s)).
Proof. reflexivity. Qed.

Lemma seed_roles (s s' : Session) :
  Role.seed s = Return s' ->
  exists i j,
    roles s' = roles s ++ [mkRole (Some i) (Some "Guests") (Some false) None;
                           mkRole (Some j) (Some "Administrator") (Some false)
                                  None].
Proof.
  unfold Role.seed. cbn [map for_each].
  rewrite session_add_new_role.
  destruct (existsb (name_is "Guests") (roles s)); [discriminate |].
  cbn [bind]. rewrite session_add_new_role. cbn [roles].
  destruct (existsb (name_is "Administrator") _); [discriminate |].
  cbn [bind for_each]. intros [= <-]. cbn [session_commit roles].
  rewrite <- app_assoc. do 2 eexists. reflexivity.
Qed.

(** C9: a role whose bitmask was never set, such as the two roles that
    [seed] creates, makes [can] raise a type error instead of returning a
    boolean; [can] returns a boolean exactly when the user has no role or
    the role's bitmask is an integer. *)
Theorem can_unset_mask_raises :
  (forall u role p,
      User_itsrole u = Some role ->
      Role_permissions role = None ->
      User.can u p = Raise TypeError)
  /\ (forall s s',
         Role.seed s = Return s' ->
         exists created,
           roles s' = roles s ++ created
           /\ map Role_name created = [Some "Guests"; Some "Administrator"]
           /\ forall r, In r created -> Role_permissions r = None)
  /\ (forall u p,
         (exists b, User.can u p = Return b)
         <-> (forall role, User_itsrole u = Some role ->
                           exists mask, Role_permissions role = Some mask)).
Proof.
  split; [| split].
  - intros u role p Hrole Hmask. unfold User.can. now rewrite Hrole, Hmask.
  - intros s s' Hseed. destruct (seed_roles s s' Hseed) as (i & j & Heq).
    eexists. split; [exact Heq |]. split; [reflexivity |].
    intros r [<- | [<- | []]]; reflexivity.
  - intros u p. unfold User.can. split.
    + intros [b Hb] role Hrole. rewrite Hrole in Hb.
      destruct (Role_permissions role) as [mask |]; [eauto | discriminate].
    + intros Hall. destruct (User_itsrole u) as [role |]; [| eauto].
      destruct (Hall role eq_refl) as [mask ->]. eauto.
Qed.

Lemma can_unset_mask_raises_witness :
  User.can (with_role seeded_guests) Permission.FOLLOW = Raise TypeError
  /\ (exists created,
         roles (session_commit
                  (mkSession
                     [seeded_guests;
                      mkRole (Some 2) (Some "Administrator") (Some false) None]
                     [] [] []))
         = roles empty_session ++ created
         /\ map Role_name created = [Some "Guests"; Some "Administrator"]
         /\ forall r, In r created -> Role_permissions r = None).
Proof.
  split.
  - apply (proj1 can_unset_mask_raises (with_role seeded_guests) seeded_guests);
      reflexivity.
  - apply (proj1 (proj2 can_unset_mask_raises) empty_session). reflexivity.
Defined.

(** ** Construction *)

Lemma opt_string_eqb_eq (a b : option string) :
  opt_string_eqb a b = true <-> a = b.
Proof.
  destruct a as [x |], b as [y |]; simpl; try (split; congruence).
  rewrite String.eqb_eq. split; congruence.
Qed.

Lemma query_first_spec (crit : Role -> bool) (s : Session) :
  match query_first crit s with
  | Some r => In r (roles s) /\ crit r = true
  | None => forall r, In r (roles s) -> crit r = false
  end.
Proof.
  unfold query_first. destruct (find crit (roles s)) as [r |] eqn:Hfind.
  - now apply find_some in Hfind.
  - intros r Hin. now apply (find_none _ _ Hfind).
Qed.

Lemma permissions_is_iff (p : Z) (r : Role) :
  permissions_is p r = true <-> Role_permissions r = Some p.
Proof.
  unfold permissions_is. destruct (Role_permissions r) as [q |].
  - rewrite Z.eqb_eq. split; congruence.
  - split; discriminate.
Qed.

Lemma default_is_true_iff (r : Role) :
  default_is_true r = true <-> Role_default r = Some true.
Proof.
  unfold default_is_true. destruct (Role_default r) as [[|] |];
    split; congruence.
Qed.

(** C8: a user built without a role gets a role with bitmask 0xFF when
    the email is the configured administrator's, the role flagged default
    otherwise, and no role (without any error) when the table has no
    such role; nothing else of the user is touched. *)
Theorem init_assigns_role (config : Config) (s : Session) (u : User) :
  User_itsrole u = None ->
  (User_email u = FLASK_ADMIN config ->
   match User_itsrole (User.init config s u) with
   | Some r => In r (roles s) /\ Role_permissions r = Some 0xff
   | None => forall r, In r (roles s) -> Role_permissions r <> Some 0xff
   end)
  /\ (User_email u <> FLASK_ADMIN config ->
      match User_itsrole (User.init config s u) with
      | Some r => In r (roles s) /\ Role_default r = Some true
      | None => forall r, In r (roles s) -> Role_default r <> Some true
      end)
  /\ User.init config s u
     = User.set_itsrole (User_itsrole (User.init config s u)) u.
Proof.
  intros Hnone. unfold User.init. rewrite Hnone.
  destruct (opt_string_eqb (User_email u) (FLASK_ADMIN config)) eqn:Hadmin.
  - apply opt_string_eqb_eq in Hadmin. split; [| split].
    + intros _. cbn [User.set_itsrole User_itsrole].
      pose proof (query_first_spec (permissions_is 0xff) s) as Hq.
      destruct (query_first (permissions_is 0xff) s) as [r |].
      * destruct Hq as [Hin Hr]. now apply permissions_is_iff in Hr.
      * intros r Hin Hr. apply permissions_is_iff in Hr.
        rewrite (Hq r Hin) in Hr. discriminate.
    + intros Hne. contradiction.
    + reflexivity.
  - assert (Hne : User_email u <> FLASK_ADMIN config).
    { intros Heq. apply opt_string_eqb_eq in Heq. congruence. }
    split; [| split].
    + intros Heq. contradiction.
    + intros _. cbn [User.set_itsrole User_itsrole].
      pose proof (query_first_spec default_is_true s) as Hq.
      destruct (query_first default_is_true s) as [r |].
      * destruct Hq as [Hin Hr]. now apply default_is_true_iff in Hr.
      * intros r Hin Hr. apply default_is_true_iff in Hr.
        rewrite (Hq r Hin) in Hr. discriminate.
    + reflexivity.
Qed.

Lemma init_assigns_role_witness :
  (match User_itsrole (User.init sample_config sample_session
                                 (with_email "admin@example.com")) with
   | Some r => In r (roles sample_session) /\ Role_permissions r = Some 0xff
   | None => forall r, In r (roles sample_session) ->
                       Role_permissions r <> Some 0xff
   end)
  /\ (match User_itsrole (User.init sample_config sample_session
                                    (with_email "ann@example.com")) with
      | Some r => In r (roles sample_session) /\ Role_default r = Some true
      | None => forall r, In r (roles sample_session) ->
                          Role_default r <> Some true
      end).
Proof.
  split.
  - apply (proj1 (init_assigns_role sample_config sample_session
                                    (with_email "admin@example.com") eq_refl)).
    reflexivity.
  - apply (proj1 (proj2 (init_assigns_role sample_config sample_session
                                           (with_email "ann@example.com")
                                           eq_refl))).
    discriminate.
Defined.

(** ** Passwords *)



(** The test vectors of FIPS 180-4 and RFC 4231, and derived keys as
    [hashlib.pbkdf2_hmac] gives them. *)
Example sha256_constants :
  List.length SHA256.K = 64%nat
  /\ nth 0 SHA256.K 0 = 0x428a2f98 /\ nth 63 SHA256.K 0 = 0xc67178f2
  /\ fst SHA256.init = (0x6a09e667, 0xbb67ae85, 0x3c6ef372, 0xa54ff53a,
                        0x510e527f, 0x9b05688c, 0x1f83d9ab).
Proof. vm_compute. repeat split. Qed.

Example sha256_abc :
  MD5.hex (SHA256.digest (MD5.bytes_of_string "abc"))
  = "ba7816bf8f01cfea414140de5dae2223b00361a396177a9cb410ff61f20015ad".
Proof. vm_compute. reflexivity. Qed.

Example sha256_empty :
  MD5.hex (SHA256.digest [])
  = "e3b0c44298fc1c149afbf4c8996fb92427ae41e4649b934ca495991b7852b855".
Proof. vm_compute. reflexivity. Qed.

Example sha256_two_blocks :
  MD5.hex (SHA256.digest (repeat 97 100))
  = "2816597888e4a0d3a36b82b83316ab32680eb8f00f8cd3b904d681246d285a0e".
Proof. vm_compute. reflexivity. Qed.

Example hmac_sha256_rfc4231 :
  MD5.hex (SHA256.hmac (MD5.bytes_of_string "Jefe")
                       (MD5.bytes_of_string "what do ya want for nothing?"))
  = "5bdcc146bf60754e6a042426089575c75a003f089d2739839dec58b964ec3843".
Proof. vm_compute. reflexivity. Qed.

Example hmac_sha256_long_key :
  MD5.hex (SHA256.hmac (repeat 107 100) (MD5.bytes_of_string "msg"))
  = "bd56a1782c2830e8abc6ed866a57a1230661e650b84c62f7ee3accc5fa5af491".
Proof. vm_compute. reflexivity. Qed.

Example pbkdf2_one_iteration :
  pbkdf2_hex "password" "salt" 1
  = "120fb6cffcf8b32c43e7225256c4f837a86548c92ccc35480805987cb70be17b".
Proof. vm_compute. reflexivity. Qed.

Example pbkdf2_two_iterations :
  pbkdf2_hex "password" "salt" 2
  = "ae4d0c95af6b46d32d0adff928f06dd02a303f8ef3c251dfd6e2d85a95474c43".
Proof. vm_compute. reflexivity. Qed.

(** A hash as [generate_password_hash] writes it, and a text that is no
    hash. *)
Example werkzeug_check_examples :
  werkzeug_check
    "pbkdf2:sha256:2$MktQl0Ab$b933f7e51a33bb5e57d9694618050b880c3bfaba630351aabe1f8be03d1f8f6e"
    "cat" = true
  /\ werkzeug_check
       "pbkdf2:sha256:2$MktQl0Ab$b933f7e51a33bb5e57d9694618050b880c3bfaba630351aabe1f8be03d1f8f6e"
       "dog" = false
  /\ werkzeug_check "b933f7e51a33bb5e57d9694618050b880c3bfaba" "cat" = false.
Proof. vm_compute. repeat split. Qed.

(** The parts of a hash are found again by [split]. *)
Lemma split_first_app (c : ascii) (s1 s2 : string) :
  ~ In c (list_ascii_of_string s1) ->
  split_first c (s1 ++ String c s2) = Some (s1, s2).
Proof.
  induction s1 as [| a s1 IH]; cbn [append split_first list_ascii_of_string].
  - intros _. now rewrite Ascii.eqb_refl.
  - intros Hnot. destruct (Ascii.eqb_spec a c) as [-> | _].
    + exfalso. apply Hnot. now left.
    + rewrite IH; [reflexivity |]. intros Hin. apply Hnot. now right.
Qed.

Lemma in_append (c : ascii) (s1 s2 : string) :
  In c (list_ascii_of_string (s1 ++ s2)) ->
  In c (list_ascii_of_string s1) \/ In c (list_ascii_of_string s2).
Proof.
  induction s1 as [| a s1 IH]; cbn [append list_ascii_of_string In].
  - now right.
  - intros [-> | Hin]; [left; now left |].
    destruct (IH Hin); [left; now right | now right].
Qed.

Lemma strip_prefix_app (p s : string) : strip_prefix p (p ++ s) = Some s.
Proof.
  induction p as [| a p IH]; cbn [append strip_prefix].
  - now destruct s.
  - now rewrite Ascii.eqb_refl.
Qed.

Lemma digits_no_dollar (d : Decimal.uint) :
  ~ In "$"%char (list_ascii_of_string (NilEmpty.string_of_uint d)).
Proof.
  induction d; cbn [NilEmpty.string_of_uint list_ascii_of_string In];
    [tauto | ..]; (intros [Habs | Hin]; [discriminate | tauto]).
Qed.

Lemma decimal_no_dollar (n : N) :
  ~ In "$"%char (list_ascii_of_string (decimal n)).
Proof.
  unfold decimal, NilZero.string_of_uint.
  destruct (N.to_uint n) eqn:Hn; try (rewrite <- Hn; apply digits_no_dollar).
  cbn. intros [Habs | []]. discriminate.
Qed.

Lemma gen_salt_no_dollar (draws : string) :
  ~ In "$"%char (list_ascii_of_string (gen_salt draws)).
Proof.
  induction draws as [| c rest IH]; cbn [gen_salt list_ascii_of_string In];
    [tauto |].
  intros [Habs | Hin]; [| tauto].
  assert (Hall : forallb (fun a => negb (Ascii.eqb a "$"))
                         ("a"%char :: list_ascii_of_string SALT_CHARS) = true)
    by reflexivity.
  rewrite forallb_forall in Hall.
  specialize (Hall "$"%char). rewrite Ascii.eqb_refl in Hall.
  assert (Hin : In "$"%char ("a"%char :: list_ascii_of_string SALT_CHARS)).
  { rewrite <- Habs.
    destruct (nth_in_or_default (nat_of_ascii c mod 62)
                (list_ascii_of_string SALT_CHARS) "a"%char) as [H | H].
    - now right.
    - left. now rewrite H. }
  specialize (Hall Hin). discriminate.
Qed.

Lemma method_iterations_decimal (n : positive) :
  method_iterations ("pbkdf2:sha256:" ++ decimal (Npos n)) = Some (Npos n).
Proof.
  unfold method_iterations. rewrite strip_prefix_app. unfold decimal.
  rewrite NilZero.usu by apply DecimalPos.Unsigned.to_uint_nonnil.
  now rewrite DecimalN.Unsigned.of_to.
Qed.

Lemma append_assoc (a b c : string) : ((a ++ b) ++ c = a ++ (b ++ c))%string.
Proof.
  induction a as [| x a IH]; cbn [append]; [reflexivity | now rewrite IH].
Qed.

(** What [check_password_hash] computes on a hash that
    [generate_password_hash] made: the password is hashed with the salt
    and the iteration count of the hash, and the digests are compared. *)
Lemma werkzeug_check_generated (n : positive) (draws s s' : string) :
  werkzeug_check (werkzeug_generate n draws s) s'
  = String.eqb (pbkdf2_hex s' (gen_salt draws) n)
               (pbkdf2_hex s (gen_salt draws) n).
Proof.
  unfold werkzeug_check, werkzeug_generate.
  change ("pbkdf2:sha256:" ++ decimal (N.pos n) ++ "$" ++ gen_salt draws
            ++ "$" ++ pbkdf2_hex s (gen_salt draws) n)%string
    with ("pbkdf2:sha256:"
            ++ (decimal (N.pos n)
                  ++ String "$" (gen_salt draws
                       ++ String "$" (pbkdf2_hex s (gen_salt draws) n))))%string.
  rewrite <- append_assoc.
  rewrite split_first_app.
  - rewrite split_first_app by apply gen_salt_no_dollar.
    now rewrite method_iterations_decimal.
  - intros Hin. apply in_append in Hin as [Hin | Hin].
    + cbn in Hin. repeat (destruct Hin as [Hin | Hin]; [discriminate |]).
      exact Hin.
    + now apply decimal_no_dollar in Hin.
Qed.

(** The password enters the derived key through the key block of HMAC
    alone. *)
Lemma pbkdf2_hex_key_block (s s' salt : string) (n : positive) :
  SHA256.key_block (MD5.bytes_of_string s')
  = SHA256.key_block (MD5.bytes_of_string s) ->
  pbkdf2_hex s' salt n = pbkdf2_hex s salt n.
Proof.
  intros Hkey. unfold pbkdf2_hex, SHA256.pbkdf2_hmac. now rewrite Hkey.
Qed.

Lemma bytes_of_string_app (s t : string) :
  MD5.bytes_of_string (s ++ t)
  = MD5.bytes_of_string s ++ MD5.bytes_of_string t.
Proof.
  unfold MD5.bytes_of_string. rewrite <- map_app. f_equal.
  induction s as [| a s IH]; cbn [append list_ascii_of_string app];
    [reflexivity | now rewrite IH].
Qed.

Lemma bytes_of_zero_bytes (k : nat) :
  MD5.bytes_of_string (zero_bytes k) = repeat 0 k.
Proof.
  induction k as [| k IH]; [reflexivity |].
  change (MD5.bytes_of_string (zero_bytes (S k)))
    with (0 :: MD5.bytes_of_string (zero_bytes k)).
  now rewrite IH.
Qed.

Lemma bytes_of_string_length (s : string) :
  List.length (MD5.bytes_of_string s) = String.length s.
Proof.
  unfold MD5.bytes_of_string. rewrite length_map.
  induction s as [| a s IH]; cbn; [reflexivity | now rewrite IH].
Qed.

(** Zero bytes after a password vanish in the key block, as long as the
    whole fits a block. *)
Lemma key_block_zero_bytes (s : string) (k : nat) :
  (String.length s + k <= 64)%nat ->
  SHA256.key_block (MD5.bytes_of_string (s ++ zero_bytes k))
  = SHA256.key_block (MD5.bytes_of_string s).
Proof.
  intros Hfit. rewrite bytes_of_string_app, bytes_of_zero_bytes.
  unfold SHA256.key_block.
  rewrite length_app, repeat_length, bytes_of_string_length.
  destruct (Nat.ltb_spec 64 (String.length s + k)) as [Hlt | _]; [lia |].
  destruct (Nat.ltb_spec 64 (String.length s)) as [Hlt | _]; [lia |].
  rewrite length_app, repeat_length, bytes_of_string_length.
  rewrite <- app_assoc, <- repeat_app. do 2 f_equal. lia.
Qed.

Lemma verify_after_setter (iterations : positive) (u : User)
  (draws s s' : string) :
  @User.verify_password (werkzeug iterations)
     (@User.password_setter (werkzeug iterations) draws u s) s'
  = Return (String.eqb (pbkdf2_hex s' (gen_salt draws) iterations)
                       (pbkdf2_hex s (gen_salt draws) iterations)).
Proof.
  unfold User.verify_password, User.password_setter.
  cbn [User.set_password_hash User_password_hash].
  unfold werkzeug.
  cbn [generate_password_hash check_password_hash].
  now rewrite werkzeug_check_generated.
Qed.

Lemma verify_same_key_block (iterations : positive) (u : User)
  (draws s s' : string) :
  SHA256.key_block (MD5.bytes_of_string s')
  = SHA256.key_block (MD5.bytes_of_string s) ->
  @User.verify_password (werkzeug iterations)
     (@User.password_setter (werkzeug iterations) draws u s) s'
  = Return true.
Proof.
  intros Hkey. rewrite verify_after_setter.
  rewrite (pbkdf2_hex_key_block s s' _ _ Hkey). now rewrite String.eqb_refl.
Qed.

(** C5, amended: right after [password = s], [verify_password s] is
    true, and [verify_password s'] is true exactly when [s'] has the
    derived key of [s] under the salt of the hash; so it is false for
    every [s'] whose derived key differs, and true for every [s'] with
    the HMAC key block of [s]: such are the passwords that extend [s] by
    zero bytes, up to 64 bytes in all. *)
Theorem verify_password_round_trip (iterations : positive) (u : User)
  (draws s : string) :
  @User.verify_password (werkzeug iterations)
     (@User.password_setter (werkzeug iterations) draws u s) s
  = Return true
  /\ (forall s',
         @User.verify_password (werkzeug iterations)
            (@User.password_setter (werkzeug iterations) draws u s) s'
         = Return (String.eqb (pbkdf2_hex s' (gen_salt draws) iterations)
                              (pbkdf2_hex s (gen_salt draws) iterations)))
  /\ (forall s',
         SHA256.key_block (MD5.bytes_of_string s')
         = SHA256.key_block (MD5.bytes_of_string s) ->
         @User.verify_password (werkzeug iterations)
            (@User.password_setter (werkzeug iterations) draws u s) s'
         = Return true)
  /\ (forall k,
         (String.length s + k <= 64)%nat ->
         @User.verify_password (werkzeug iterations)
            (@User.password_setter (werkzeug iterations) draws u s)
            (s ++ zero_bytes k)
         = Return true).
Proof.
  split; [| split; [| split]].
  - now apply verify_same_key_block.
  - intros s'. apply verify_after_setter.
  - intros s'. apply verify_same_key_block.
  - intros k Hfit. apply verify_same_key_block.
    now apply key_block_zero_bytes.
Qed.

(** C5, as stated, fails: the password ['cat\x00'] differs from ['cat']
    and verifies against the hash of ['cat'], whatever the salt. *)
Lemma verify_password_accepts_nul_suffix :
  cat_nul <> "cat"
  /\ @User.verify_password (werkzeug 50000)
        (@User.password_setter (werkzeug 50000) "saltsalt" blank_user "cat")
        cat_nul
     = Return true.
Proof.
  split; [discriminate |].
  apply verify_same_key_block. reflexivity.
Qed.

Lemma verify_password_round_trip_witness :
  @User.verify_password (werkzeug 1)
     (@User.password_setter (werkzeug 1) "saltsalt" blank_user "cat") cat_nul
  = Return true
  /\ @User.verify_password (werkzeug 1)
        (@User.password_setter (werkzeug 1) "saltsalt" blank_user "cat") "dog"
     = Return false.
Proof.
  split.
  - apply (proj1 (proj2 (proj2 (verify_password_round_trip 1 blank_user
                                  "saltsalt" "cat")))).
    reflexivity.
  - rewrite (proj1 (proj2 (verify_password_round_trip 1 blank_user "saltsalt"
                             "cat"))).
    vm_compute. reflexivity.
Defined.

(** ** Avatar URLs *)

Example md5_empty : MD5.hexdigest "" = "d41d8cd98f00b204e9800998ecf8427e".
Proof. vm_compute. reflexivity. Qed.

Example md5_abc : MD5.hexdigest "abc" = "900150983cd24fb0d6963f7d28e17f72".
Proof. vm_compute. reflexivity. Qed.

Example md5_two_blocks :
  MD5.hexdigest
    "12345678901234567890123456789012345678901234567890123456789012345678901234567890"
  = "57edf4a22be3c955ac49da2e2107b67a".
Proof. vm_compute. reflexivity. Qed.

Example lower_sample : lower "A@B.c" = "a@b.c".
Proof. reflexivity. Qed.

Lemma le_bytes_length (n : nat) (x : Z) : List.length (MD5.le_bytes n x) = n.
Proof.
  revert x. induction n as [| n IH]; intros x; [reflexivity |].
  cbn [MD5.le_bytes List.length]. now rewrite IH.
Qed.

Lemma hex_length (bs : list Z) :
  String.length (MD5.hex bs) = (2 * List.length bs)%nat.
Proof.
  induction bs as [| b bs IH]; [reflexivity |].
  cbn [MD5.hex String.length List.length]. rewrite IH. lia.
Qed.

(** A digest is sixteen bytes, printed as thirty-two hexadecimal digits. *)
Lemma hexdigest_length (s : string) : String.length (MD5.hexdigest s) = 32%nat.
Proof.
  unfold MD5.hexdigest, MD5.digest. rewrite hex_length.
  destruct (fold_left MD5.compress _ MD5.init) as [[[a b] c] d].
  now rewrite !length_app, !le_bytes_length.
Qed.

(** C6, as stated, fails: the email is hashed as it is written, not its
    lowercase.  For the email A@B.c the URL carries the digest of A@B.c,
    which is not the digest of a@b.c. *)
Lemma gravatar_does_not_lowercase :
  User.gravatar false (with_email "A@B.c") 100 "identicon" "g"
  = Return "http://www.gravatar.com/avatar/6308c773c34439c141cbeb2f62396565?s=100&r=g&d=identicon"
  /\ User.gravatar false (with_email "A@B.c") 100 "identicon" "g"
     <> Return (User.gravatar_url "http://www.gravatar.com/avatar"
                                  (MD5.hexdigest (lower "A@B.c"))
                                  100 "g" "identicon").
Proof.
  split.
  - vm_compute. reflexivity.
  - vm_compute. discriminate.
Qed.

(** C6, amended: the URL is the base host (the secure one exactly when
    the request is secure), a slash, the MD5 hex digest of the UTF-8 bytes
    of the email as stored, and the query string built from size, rating
    and default style; the session is not involved. *)
Theorem gravatar_url_of_email (is_secure : bool) (u : User) (e : string)
  (size : Z) (default rating : string) :
  User_email u = Some e ->
  User.gravatar is_secure u size default rating
  = Return ((if is_secure then "https://secure.gravatar.com/avatar"
             else "http://www.gravatar.com/avatar")
            ++ "/" ++ MD5.hexdigest e ++ "?s=" ++ str_of_Z size
            ++ "&r=" ++ rating ++ "&d=" ++ default)%string
  /\ String.length (MD5.hexdigest e) = 32%nat.
Proof.
  intros Hemail. split; [| apply hexdigest_length].
  unfold User.gravatar, User.gravatar_url. now rewrite Hemail.
Qed.

Lemma gravatar_url_of_email_witness :
  User.gravatar true (with_email "a@b.c") 100 "identicon" "g"
  = Return ("https://secure.gravatar.com/avatar"
            ++ "/" ++ MD5.hexdigest "a@b.c" ++ "?s=" ++ str_of_Z 100
            ++ "&r=" ++ "g" ++ "&d=" ++ "identicon")%string.
Proof.
  apply (proj1 (gravatar_url_of_email true (with_email "a@b.c") "a@b.c"
                                      100 "identicon" "g" eq_refl)).
Defined.

(** ** Writes to the table [users] *)

Lemma opt_Z_eqb_eq (a b : option Z) : opt_Z_eqb a b = true <-> a = b.
Proof.
  destruct a as [x |], b as [y |]; simpl; try (split; congruence).
  rewrite Z.eqb_eq. split; congruence.
Qed.


Lemma flush_itsrole_raises (r : option Role) (s : Session) (e : exn) :
  flush_itsrole r s = Raise e -> e = IntegrityError.
Proof.
  unfold flush_itsrole, session_add_role.
  destruct r as [role |]; [| discriminate].
  destruct (Role_id role); [discriminate |].
  destruct (match Role_name role with
            | Some n => existsb (name_is n) (roles s)
            | None => false
            end); cbn; congruence.
Qed.

(** The cascade leaves the table [users] alone and returns a role that
    has a key. *)
Lemma flush_itsrole_returns (r r' : option Role) (s s' : Session) :
  flush_itsrole r s = Return (r', s') ->
  staged s' = staged s /\ saved s' = saved s
  /\ match r with
     | None => r' = None /\ s' = s
     | Some role =>
         exists role' j, r' = Some role' /\ Role_id role' = Some j
                         /\ (Role_id role <> None -> role' = role /\ s' = s)
     end.
Proof.
  unfold flush_itsrole, session_add_role.
  destruct r as [role |].
  - destruct (Role_id role) as [j |] eqn:Hid.
    + intros [= <- <-]. repeat split. exists role, j. now rewrite Hid.
    + destruct (match Role_name role with
                | Some n => existsb (name_is n) (roles s)
                | None => false
                end); cbn; [discriminate |].
      intros [= <- <-]. cbn [staged saved roles]. repeat split.
      rewrite last_last. do 2 eexists. split; [reflexivity |].
      split; [reflexivity |]. congruence.
  - intros [= <- <-]. repeat split.
Qed.

(** The cascade fails exactly on a new role whose name is in use. *)
Lemma flush_itsrole_writable (u : User) (s : Session) :
  match flush_itsrole (User_itsrole u) s with
  | Raise _ => writable u s = false
  | Return _ =>
      writable u s
      = negb (email_taken (User_email u) (key_for u s) (users s))
  end.
Proof.
  unfold writable, flush_itsrole, session_add_role.
  destruct (User_itsrole u) as [role |]; [| now rewrite andb_true_r].
  destruct (Role_id role) as [j |]; [now rewrite andb_true_r |].
  destruct (Role_name role) as [n |]; [| now rewrite andb_true_r].
  destruct (existsb (name_is n) (roles s)); cbn.
  - now rewrite andb_false_r.
  - now rewrite andb_true_r.
Qed.

Lemma add_user_refused (now : Z) (u : User) (s : Session) :
  writable u s = false ->
  session_add_user now u s = Raise IntegrityError.
Proof.
  intros Hw. unfold session_add_user.
  pose proof (flush_itsrole_writable u s) as Hf.
  destruct (flush_itsrole (User_itsrole u) s) as [[r' s0] | e] eqn:Hflush.
  - apply flush_itsrole_returns in Hflush as (Hst & Hsv & _).
    cbn [bind fst snd]. unfold key_for, users in *. rewrite Hst, Hsv.
    rewrite Hw in Hf. symmetry in Hf. apply negb_false_iff in Hf.
    now rewrite Hf.
  - apply flush_itsrole_raises in Hflush. now subst e.
Qed.

Lemma add_user_written (now : Z) (u : User) (s : Session) :
  writable u s = true ->
  exists v s',
    session_add_user now u s = Return (v, s')
    /\ User_id v = Some (key_for u s)
    /\ kept u v
    /\ linked v = true
    /\ staged s' = v :: other_rows (key_for u s) (staged s)
    /\ saved s' = other_rows (key_for u s) (saved s)
    /\ (User_confirmed v
        = if stored u s then User_confirmed u
          else or_default (User_confirmed u) false)
    /\ (User_member_since v
        = if stored u s then User_member_since u
          else or_default (User_member_since u) now)
    /\ (User_last_seen v
        = if stored u s then User_last_seen u
          else or_default (User_last_seen u) now)
    /\ (stored u s = true -> linked u = true ->
        v = u /\ roles s' = roles s /\ committed_roles s' = committed_roles s).
Proof.
  intros Hw. unfold session_add_user.
  pose proof (flush_itsrole_writable u s) as Hf.
  destruct (flush_itsrole (User_itsrole u) s) as [[r' s0] | e] eqn:Hflush;
    [| congruence].
  apply flush_itsrole_returns in Hflush as (Hst & Hsv & Hrole).
  cbn [bind fst snd].
  assert (Hkey : key_for u s0 = key_for u s)
    by (unfold key_for, users; now rewrite Hst, Hsv).
  assert (Hstored : stored u s0 = stored u s)
    by (unfold stored, users; now rewrite Hst, Hsv).
  assert (Husers : users s0 = users s)
    by (unfold users; now rewrite Hst, Hsv).
  rewrite Hkey, Hstored, Husers.
  rewrite Hw in Hf. symmetry in Hf. apply negb_true_iff in Hf. rewrite Hf.
  do 2 eexists. split; [reflexivity |].
  cbn [User_id User_username User_email User_role_id User_password_hash
       User_confirmed User_name User_location User_about_me
       User_member_since User_last_seen User_itsrole staged saved roles
       committed_roles].
  rewrite Hst, Hsv.
  split; [reflexivity |]. split.
  { unfold kept.
    cbn [User_id User_username User_email User_role_id User_password_hash
         User_confirmed User_name User_location User_about_me
         User_member_since User_last_seen User_itsrole].
    repeat (split; [reflexivity |]).
    unfold key_for.
    destruct (stored u s) eqn:Hs; cbn [negb];
      destruct (User_id u), (User_confirmed u), (User_member_since u),
        (User_last_seen u); cbn; repeat split; congruence. }
  split.
  { unfold linked.
    cbn [User_itsrole User_role_id].
    destruct (User_itsrole u) as [role |].
    - destruct Hrole as (role' & j & -> & Hj & _). rewrite Hj.
      cbn. apply Z.eqb_refl.
    - destruct Hrole as [-> _]. reflexivity. }
  split; [reflexivity |]. split; [reflexivity |].
  split; [now destruct (stored u s) |].
  split; [now destruct (stored u s) |].
  split; [now destruct (stored u s) |].
  intros Hs Hl. rewrite Hs. cbn [negb].
  assert (Hid : User_id u = Some (key_for u s)).
  { unfold stored in Hs. unfold key_for.
    destruct (User_id u); [reflexivity | discriminate]. }
  rewrite <- Hid. unfold linked in Hl.
  destruct (User_itsrole u) as [role |] eqn:Hits.
  - destruct Hrole as (role' & j & -> & Hj & Hsame).
    destruct (Role_id role) as [j' |] eqn:Hj'; [| discriminate].
    destruct Hsame as [-> ->]; [discriminate |].
    apply opt_Z_eqb_eq in Hl. rewrite Hj', <- Hl, <- Hits.
    now destruct u.
  - destruct Hrole as [-> ->]. rewrite <- Hits. now destruct u.
Qed.

Lemma other_rows_app (k : Z) (l1 l2 : list User) :
  other_rows k (l1 ++ l2) = other_rows k l1 ++ other_rows k l2.
Proof. apply filter_app. Qed.


Lemma has_id_other_rows (k : Z) (l : list User) :
  existsb (has_id k) (other_rows k l) = false.
Proof.
  unfold other_rows. induction l as [| r l IH]; [reflexivity |].
  cbn [filter]. destruct (has_id k r) eqn:Hr; cbn [negb]; [exact IH |].
  cbn [existsb]. now rewrite Hr, IH.
Qed.






(** ** Confirmation tokens *)

Section Confirm.
Context {serializer : Serializer}.
Variable config : Config.





(** The write that an accepted token leads to: refused when a unique
    constraint stands in the way, and otherwise a row that is confirmed,
    that keeps what the object had, and that the commit saves in place of
    any row of the same key. *)
Lemma confirm_write (now : Z) (u : User) (s : Session) :
  if writable u s
  then exists u' s0,
      session_add_user now (User.set_confirmed (Some true) u) s
      = Return (u', s0)
      /\ User_confirmed u' = Some true
      /\ User_id u' = Some (key_for u s)
      /\ kept (User.set_confirmed (Some true) u) u'
      /\ session_commit s0
         = mkSession (roles s0) (roles s0) []
                     (u' :: other_rows (key_for u s) (users s))
      /\ (stored u s = true -> linked u = true ->
          u' = User.set_confirmed (Some true) u /\ roles s0 = roles s)
      /\ (stored u s = false ->
          User_member_since u' = or_default (User_member_since u) now
          /\ User_last_seen u' = or_default (User_last_seen u) now)
  else session_add_user now (User.set_confirmed (Some true) u) s
       = Raise IntegrityError.
Proof.
  destruct (writable u s) eqn:Hw.
  - change (writable (User.set_confirmed (Some true) u) s = true) in Hw.
    destruct (add_user_written now _ s Hw)
      as (v & s0 & Hadd & Hkey & Hkept & Hl & Hst & Hsv & Hc & Hm & Hls & Hex).
    exists v, s0. split; [exact Hadd |].
    change (stored (User.set_confirmed (Some true) u) s) with (stored u s) in *.
    change (key_for (User.set_confirmed (Some true) u) s) with (key_for u s) in *.
    change (linked (User.set_confirmed (Some true) u)) with (linked u) in *.
    split.
    { rewrite Hc. now destruct (stored u s). }
    split; [exact Hkey |]. split; [exact Hkept |]. split.
    { unfold session_commit, users. now rewrite Hst, Hsv, other_rows_app. }
    split.
    { intros Hs Hlu. destruct (Hex Hs Hlu) as (-> & Hr & _). now split. }
    intros Hs. rewrite Hs in Hm, Hls. now split.
  - now apply add_user_refused.
Qed.



End Confirm.





(** ** The role catalog *)

Lemma name_is_iff (n : string) (r : Role) :
  name_is n r = true <-> Role_name r = Some n.
Proof.
  unfold name_is. destruct (Role_name r) as [m |].
  - rewrite String.eqb_eq. split; congruence.
  - split; discriminate.
Qed.

Lemma name_is_functional (a b : string) (r : Role) :
  name_is a r = true -> name_is b r = true -> a = b.
Proof. rewrite !name_is_iff. congruence. Qed.

Lemma in_names (n : string) (tbl : list Role) :
  In n (names tbl) <-> exists r, In r tbl /\ name_is n r = true.
Proof.
  unfold names. rewrite in_flat_map. split.
  - intros (r & Hin & Hn). exists r. split; [assumption |].
    apply name_is_iff. destruct (Role_name r) as [m |]; [| contradiction].
    destruct Hn as [-> | []]. reflexivity.
  - intros (r & Hin & Hn). exists r. split; [assumption |].
    apply name_is_iff in Hn. rewrite Hn. now left.
Qed.

Lemma existsb_name_is (n : string) (tbl : list Role) :
  existsb (name_is n) tbl = true <-> In n (names tbl).
Proof. rewrite existsb_exists. symmetry. apply in_names. Qed.

Lemma names_cons (a : Role) (tbl : list Role) :
  names (a :: tbl)
  = match Role_name a with
    | Some n => n :: names tbl
    | None => names tbl
    end.
Proof. unfold names. cbn [flat_map]. now destruct (Role_name a). Qed.

Lemma names_app (t1 t2 : list Role) : names (t1 ++ t2) = names t1 ++ names t2.
Proof. unfold names. apply flat_map_app. Qed.

Lemma NoDup_names_tail (a : Role) (tbl : list Role) :
  NoDup (names (a :: tbl)) -> NoDup (names tbl).
Proof.
  rewrite names_cons. destruct (Role_name a); [| trivial].
  now inversion 1.
Qed.

Lemma NoDup_names_head (n : string) (a : Role) (tbl : list Role) :
  NoDup (names (a :: tbl)) -> name_is n a = true -> ~ In n (names tbl).
Proof.
  rewrite names_cons, name_is_iff. intros Hnd Hn. rewrite Hn in Hnd.
  now inversion Hnd.
Qed.

(** Two rows of a well-formed table with the same name are one row. *)
Lemma same_name_same_row (n : string) (tbl : list Role) (x y : Role) :
  NoDup (names tbl) -> In x tbl -> In y tbl ->
  name_is n x = true -> name_is n y = true -> x = y.
Proof.
  induction tbl as [| a tbl IH]; [contradiction |].
  intros Hnd [-> | Hx] [-> | Hy] Hnx Hny.
  - reflexivity.
  - exfalso. apply (NoDup_names_head n x tbl Hnd Hnx).
    apply in_names. eauto.
  - exfalso. apply (NoDup_names_head n y tbl Hnd Hny).
    apply in_names. eauto.
  - apply IH; trivial. now apply NoDup_names_tail in Hnd.
Qed.

Lemma NoDup_map_inj {A B : Type} (f : A -> B) (l : list A) (x y : A) :
  NoDup (map f l) -> In x l -> In y l -> f x = f y -> x = y.
Proof.
  induction l as [| a l IH]; [contradiction |].
  cbn [map]. intros Hnd [-> | Hx] [-> | Hy] Hf.
  - reflexivity.
  - exfalso. inversion Hnd as [| ? ? Hnotin _]. apply Hnotin.
    rewrite Hf. now apply in_map.
  - exfalso. inversion Hnd as [| ? ? Hnotin _]. apply Hnotin.
    rewrite <- Hf. now apply in_map.
  - apply IH; trivial. now inversion Hnd.
Qed.

Lemma NoDup_snoc {A : Type} (l : list A) (a : A) :
  NoDup l -> ~ In a l -> NoDup (l ++ [a]).
Proof.
  induction l as [| b l IH]; cbn [app]; intros Hnd Hnotin.
  - constructor; [intros [] | constructor].
  - inversion Hnd as [| ? ? Hb Hl]. subst. constructor.
    + rewrite in_app_iff. intros [Hin | [-> | []]]; [contradiction |].
      apply Hnotin. now left.
    + apply IH; [assumption |]. intros Hin. apply Hnotin. now right.
Qed.

Lemma row_id_lt_fresh (tbl : list Role) (r : Role) :
  In r tbl -> row_id r < fresh_id tbl.
Proof.
  unfold fresh_id. induction tbl as [| a tbl IH]; [contradiction |].
  cbn [map fold_right]. intros [-> | Hin].
  - lia.
  - specialize (IH Hin). lia.
Qed.

Lemma fresh_id_unused (tbl : list Role) :
  ~ In (Some (fresh_id tbl)) (map Role_id tbl).
Proof.
  rewrite in_map_iff. intros (r & Hid & Hin).
  pose proof (row_id_lt_fresh tbl r Hin) as Hlt.
  unfold row_id in Hlt. rewrite Hid in Hlt. lia.
Qed.

Lemma revise_id (e : string * (Z * bool)) (x : Role) :
  Role_id (revise e x) = Role_id x.
Proof. unfold revise. now destruct (name_is (fst e) x). Qed.

Lemma revise_name (e : string * (Z * bool)) (x : Role) :
  Role_name (revise e x) = Role_name x.
Proof. unfold revise. now destruct (name_is (fst e) x). Qed.

Lemma names_revise (e : string * (Z * bool)) (tbl : list Role) :
  names (map (revise e) tbl) = names tbl.
Proof.
  induction tbl as [| a tbl IH]; [reflexivity |].
  cbn [map]. now rewrite !names_cons, revise_name, IH.
Qed.

(** On a well-formed table an iteration of the loop never raises and
    acts as [upsert]. *)
Lemma insert_role_upsert (e : string * (Z * bool)) (s : Session) :
  wf_roles (roles s) ->
  Role.insert_role e s = Return (set_roles (upsert e (roles s)) s).
Proof.
  intros (Hids & Hkey & Hnames). destruct e as [n [p d]].
  unfold Role.insert_role, query_first, upsert. cbn [fst snd].
  destruct (find (name_is n) (roles s)) as [r0 |] eqn:Hfind.
  - destruct (find_some _ _ Hfind) as [Hin0 Hn0].
    assert (Hex : existsb (name_is n) (roles s) = true)
      by (apply existsb_exists; eauto).
    rewrite Hex. unfold session_add_role. cbn [Role_id Role_name Role_default
                                                 Role_permissions].
    destruct (Role_id r0) as [i |] eqn:Hi; [| now apply Hids in Hin0].
    unfold set_roles. do 2 f_equal. apply map_ext_in. intros x Hx.
    unfold revise. cbn [fst snd].
    destruct (opt_Z_eqb (Role_id x) (Some i)) eqn:Hxi.
    + apply opt_Z_eqb_eq in Hxi.
      assert (x = r0) as ->
        by (apply (NoDup_map_inj Role_id (roles s)); congruence).
      now rewrite Hn0, Hi.
    + destruct (name_is n x) eqn:Hnx; [| reflexivity].
      assert (x = r0) as ->
        by (apply (same_name_same_row n (roles s)); assumption).
      rewrite Hi in Hxi. cbn in Hxi. now rewrite Z.eqb_refl in Hxi.
  - assert (Hex : existsb (name_is n) (roles s) = false).
    { apply not_true_is_false. intros Hex.
      apply existsb_exists in Hex. destruct Hex as (x & Hx & Hnx).
      now rewrite (find_none _ _ Hfind x Hx) in Hnx. }
    rewrite Hex. unfold session_add_role, Role.new.
    cbn [Role_id Role_name Role_default Role_permissions].
    now rewrite Hex.
Qed.

Lemma insert_row_wf (tbl : list Role) (n : string) (d : option bool)
  (p : option Z) :
  wf_roles tbl -> existsb (name_is n) tbl = false ->
  wf_roles (tbl ++ [mkRole (Some (fresh_id tbl)) (Some n) d p]).
Proof.
  intros (Hids & Hkey & Hnames) Hex. repeat split.
  - intros r Hin. apply in_app_or in Hin. destruct Hin as [Hin | [<- | []]].
    + now apply Hids.
    + discriminate.
  - rewrite map_app. cbn [map Role_id]. apply NoDup_snoc; [assumption |].
    apply fresh_id_unused.
  - rewrite names_app. apply NoDup_snoc; [assumption |].
    intros Hin. apply existsb_name_is in Hin. congruence.
Qed.

Lemma upsert_wf (e : string * (Z * bool)) (tbl : list Role) :
  wf_roles tbl -> wf_roles (upsert e tbl).
Proof.
  intros Hwf. unfold upsert.
  destruct (existsb (name_is (fst e)) tbl) eqn:Hex.
  - destruct Hwf as (Hids & Hkey & Hnames). repeat split.
    + intros r Hin. apply in_map_iff in Hin. destruct Hin as (x & <- & Hx).
      rewrite revise_id. now apply Hids.
    + rewrite map_map. erewrite map_ext; [exact Hkey |].
      intros x. apply revise_id.
    + now rewrite names_revise.
  - now apply insert_row_wf.
Qed.

Lemma upsert_all_wf (spec : list (string * (Z * bool))) (tbl : list Role) :
  wf_roles tbl -> wf_roles (upsert_all spec tbl).
Proof.
  revert tbl. induction spec as [| e spec IH]; intros tbl Hwf; [assumption |].
  cbn. apply IH. now apply upsert_wf.
Qed.

Lemma for_each_insert_role (spec : list (string * (Z * bool))) (s : Session) :
  wf_roles (roles s) ->
  for_each spec Role.insert_role s
  = Return (set_roles (upsert_all spec (roles s)) s).
Proof.
  revert s. induction spec as [| e spec IH]; intros s Hwf.
  - cbn. now destruct s.
  - cbn [for_each]. rewrite (insert_role_upsert e s Hwf). cbn [bind].
    rewrite IH; [reflexivity |]. cbn [set_roles roles]. now apply upsert_wf.
Qed.

Lemma insert_roles_from_upsert_all (spec : list (string * (Z * bool)))
  (s : Session) :
  wf_roles (roles s) ->
  Role.insert_roles_from spec s
  = Return (session_commit (set_roles (upsert_all spec (roles s)) s)).
Proof.
  intros Hwf. unfold Role.insert_roles_from.
  now rewrite (for_each_insert_role spec s Hwf).
Qed.

(** *** What one [upsert] does to the rows *)

Lemma upsert_named (e : string * (Z * bool)) (tbl : list Role) (r : Role) :
  In r (upsert e tbl) -> name_is (fst e) r = true ->
  Role_default r = Some (snd (snd e))
  /\ Role_permissions r = Some (fst (snd e)).
Proof.
  unfold upsert. destruct (existsb (name_is (fst e)) tbl) eqn:Hex.
  - intros Hin Hn. apply in_map_iff in Hin. destruct Hin as (x & <- & Hx).
    unfold revise in *. destruct (name_is (fst e) x) eqn:Hnx.
    + split; reflexivity.
    + congruence.
  - intros Hin Hn. apply in_app_or in Hin. destruct Hin as [Hin | [<- | []]].
    + exfalso. assert (existsb (name_is (fst e)) tbl = true)
        by (apply existsb_exists; eauto). congruence.
    + split; reflexivity.
Qed.

Lemma upsert_other (e : string * (Z * bool)) (tbl : list Role) (r : Role) :
  In r (upsert e tbl) -> name_is (fst e) r = false -> In r tbl.
Proof.
  unfold upsert. destruct (existsb (name_is (fst e)) tbl) eqn:Hex.
  - intros Hin Hn. apply in_map_iff in Hin. destruct Hin as (x & <- & Hx).
    unfold revise in *. destruct (name_is (fst e) x) eqn:Hnx.
    + unfold name_is in Hn. cbn in Hn. apply name_is_iff in Hnx.
      rewrite Hnx, String.eqb_refl in Hn. discriminate.
    + assumption.
  - intros Hin Hn. apply in_app_or in Hin. destruct Hin as [Hin | [<- | []]].
    + assumption.
    + unfold name_is in Hn. cbn in Hn. rewrite String.eqb_refl in Hn.
      discriminate.
Qed.

Lemma names_upsert (e : string * (Z * bool)) (tbl : list Role) :
  names (upsert e tbl)
  = if existsb (name_is (fst e)) tbl then names tbl
    else names tbl ++ [fst e].
Proof.
  unfold upsert. destruct (existsb (name_is (fst e)) tbl).
  - apply names_revise.
  - now rewrite names_app.
Qed.

Lemma upsert_has (e : string * (Z * bool)) (tbl : list Role) :
  existsb (name_is (fst e)) (upsert e tbl) = true.
Proof.
  apply existsb_name_is. rewrite names_upsert.
  destruct (existsb (name_is (fst e)) tbl) eqn:Hex.
  - now apply existsb_name_is.
  - apply in_or_app. right. now left.
Qed.

Lemma upsert_keeps_names (e : string * (Z * bool)) (tbl : list Role)
  (n : string) :
  existsb (name_is n) tbl = true -> existsb (name_is n) (upsert e tbl) = true.
Proof.
  rewrite !existsb_name_is, names_upsert. intros Hin.
  destruct (existsb (name_is (fst e)) tbl); [assumption |].
  apply in_or_app. now left.
Qed.

(** *** What the whole loop does *)

Lemma upsert_all_other (spec : list (string * (Z * bool))) (tbl : list Role)
  (r : Role) :
  In r (upsert_all spec tbl) -> listed spec r = false -> In r tbl.
Proof.
  revert tbl. induction spec as [| e spec IH]; intros tbl Hin Hl.
  - assumption.
  - cbn in Hl. apply orb_false_iff in Hl. destruct Hl as [Hn Hl].
    apply (upsert_other e); [| assumption]. now apply IH.
Qed.

Lemma upsert_all_keeps_names (spec : list (string * (Z * bool)))
  (tbl : list Role) (n : string) :
  existsb (name_is n) tbl = true ->
  existsb (name_is n) (upsert_all spec tbl) = true.
Proof.
  revert tbl. induction spec as [| e spec IH]; intros tbl Hex; [assumption |].
  cbn. apply IH. now apply upsert_keeps_names.
Qed.

Lemma upsert_all_has (spec : list (string * (Z * bool))) (tbl : list Role)
  (e : string * (Z * bool)) :
  In e spec -> existsb (name_is (fst e)) (upsert_all spec tbl) = true.
Proof.
  revert tbl. induction spec as [| e0 spec IH]; intros tbl Hin; [contradiction |].
  cbn. destruct Hin as [-> | Hin].
  - apply upsert_all_keeps_names, upsert_has.
  - now apply IH.
Qed.

Lemma not_listed (spec : list (string * (Z * bool))) (n : string) (r : Role) :
  ~ In n (map fst spec) -> name_is n r = true -> listed spec r = false.
Proof.
  intros Hnotin Hn. apply not_true_is_false. intros Hl.
  apply existsb_exists in Hl. destruct Hl as (e & He & Hne).
  apply Hnotin. rewrite (name_is_functional n (fst e) r Hn Hne).
  now apply in_map.
Qed.

Lemma upsert_all_named (spec : list (string * (Z * bool))) (tbl : list Role)
  (e : string * (Z * bool)) (r : Role) :
  NoDup (map fst spec) ->
  In e spec -> In r (upsert_all spec tbl) -> name_is (fst e) r = true ->
  Role_default r = Some (snd (snd e))
  /\ Role_permissions r = Some (fst (snd e)).
Proof.
  revert tbl. induction spec as [| e0 spec IH]; intros tbl Hnd He Hr Hn;
    [contradiction |].
  cbn [map] in Hnd. inversion Hnd as [| ? ? Hfresh Hnd']. subst.
  cbn in Hr. destruct He as [-> | He].
  - apply (upsert_named e tbl); [| assumption].
    apply (upsert_all_other spec); [assumption |].
    now apply (not_listed spec (fst e)).
  - now apply (IH (upsert e0 tbl)).
Qed.

Lemma upsert_all_settled (spec : list (string * (Z * bool))) (tbl : list Role) :
  NoDup (map fst spec) -> settled spec (upsert_all spec tbl).
Proof.
  intros Hnd. split.
  - intros e He. now apply upsert_all_has.
  - intros e r He Hr Hn. now apply (upsert_all_named spec tbl).
Qed.

(** A settled table is a fixed point of the loop. *)
Lemma upsert_settled (spec : list (string * (Z * bool))) (tbl : list Role)
  (e : string * (Z * bool)) :
  settled spec tbl -> In e spec -> upsert e tbl = tbl.
Proof.
  intros [Hhas Hval] He. unfold upsert. rewrite (Hhas e He).
  rewrite <- (map_id tbl) at 2. apply map_ext_in. intros x Hx.
  unfold revise. destruct (name_is (fst e) x) eqn:Hn; [| reflexivity].
  destruct (Hval e x He Hx Hn) as [Hd Hp]. destruct x. cbn in *. congruence.
Qed.

Lemma upsert_all_settled_fixed (spec part : list (string * (Z * bool)))
  (tbl : list Role) :
  settled spec tbl -> incl part spec -> upsert_all part tbl = tbl.
Proof.
  intros Hs. induction part as [| e part IH]; intros Hincl; [reflexivity |].
  cbn. rewrite (upsert_settled spec tbl e Hs).
  - apply IH. intros x Hx. apply Hincl. now right.
  - apply Hincl. now left.
Qed.

(** In a well-formed table a name selects at most one row. *)
Lemma filter_name_single (n : string) (tbl : list Role) (r : Role) :
  NoDup (names tbl) -> In r tbl -> name_is n r = true ->
  filter (name_is n) tbl = [r].
Proof.
  induction tbl as [| a tbl IH]; [contradiction |].
  intros Hnd Hin Hn. cbn [filter].
  destruct (name_is n a) eqn:Hna.
  - assert (Hnone : filter (name_is n) tbl = []).
    { destruct (filter (name_is n) tbl) as [| x l] eqn:Hf; [reflexivity |].
      exfalso. assert (Hx : In x (filter (name_is n) tbl))
        by (rewrite Hf; now left).
      apply filter_In in Hx. destruct Hx as [Hx Hnx].
      apply (NoDup_names_head n a tbl Hnd Hna). apply in_names. eauto. }
    rewrite Hnone. f_equal.
    apply (same_name_same_row n (a :: tbl)); trivial. now left.
  - destruct Hin as [-> | Hin]; [congruence |].
    apply IH; trivial. now apply NoDup_names_tail in Hnd.
Qed.

Lemma upsert_keeps_other (e : string * (Z * bool)) (tbl : list Role)
  (r : Role) :
  In r tbl -> name_is (fst e) r = false -> In r (upsert e tbl).
Proof.
  intros Hin Hn. unfold upsert. destruct (existsb (name_is (fst e)) tbl).
  - apply in_map_iff. exists r. split; [| assumption].
    unfold revise. now rewrite Hn.
  - apply in_or_app. now left.
Qed.

Lemma upsert_all_keeps_other (spec : list (string * (Z * bool)))
  (tbl : list Role) (r : Role) :
  In r tbl -> listed spec r = false -> In r (upsert_all spec tbl).
Proof.
  revert tbl. induction spec as [| e spec IH]; intros tbl Hin Hl.
  - assumption.
  - cbn in Hl. apply orb_false_iff in Hl. destruct Hl as [Hn Hl].
    cbn. apply IH; [| assumption]. now apply upsert_keeps_other.
Qed.

Lemma roles_spec_names_NoDup : NoDup (map fst Role.roles_spec).
Proof.
  cbn. repeat constructor; cbn; intuition discriminate.
Qed.

Lemma upsert_all_no_foreign_default (tbl : list Role) :
  no_foreign_default tbl ->
  no_foreign_default (upsert_all Role.roles_spec tbl).
Proof.
  intros Hnfd r Hin Hl. apply Hnfd; [| assumption].
  now apply (upsert_all_other Role.roles_spec).
Qed.

(** After the loop the default flag marks the role named User and no
    other. *)
Lemma default_only_user (tbl : list Role) (r : Role) :
  no_foreign_default tbl ->
  In r (upsert_all Role.roles_spec tbl) ->
  default_is_true r = name_is "User" r.
Proof.
  intros Hnfd Hin.
  destruct (listed Role.roles_spec r) eqn:Hl.
  - apply existsb_exists in Hl. destruct Hl as (e & He & Hn).
    destruct (upsert_all_named Role.roles_spec tbl e r
                roles_spec_names_NoDup He Hin Hn) as [Hd _].
    unfold default_is_true. rewrite Hd.
    destruct He as [<- | [<- | [<- | []]]]; cbn [fst snd] in *.
    + now rewrite Hn.
    + destruct (name_is "User" r) eqn:Hu; [| reflexivity].
      discriminate (name_is_functional _ _ r Hn Hu).
    + destruct (name_is "User" r) eqn:Hu; [| reflexivity].
      discriminate (name_is_functional _ _ r Hn Hu).
  - rewrite (upsert_all_no_foreign_default tbl Hnfd r Hin Hl).
    cbn in Hl. apply orb_false_iff in Hl. now destruct Hl as [-> _].
Qed.

Lemma insert_roles_settled_times (k : nat) (s : Session) :
  wf_roles (roles s) ->
  settled Role.roles_spec (roles s) ->
  committed_roles s = roles s ->
  exists s', insert_roles_times k s = Return s'
             /\ roles s' = roles s
             /\ committed_roles s' = roles s'.
Proof.
  revert s. induction k as [| k IH]; intros s Hwf Hs Hc.
  - exists s. now repeat split.
  - cbn [insert_roles_times]. unfold Role.insert_roles.
    rewrite (insert_roles_from_upsert_all _ s Hwf).
    rewrite (upsert_all_settled_fixed Role.roles_spec Role.roles_spec (roles s)
               Hs (incl_refl _)).
    cbn [bind].
    destruct (IH (session_commit (set_roles (roles s) s))) as (s' & Hrun & Hr & Hc');
      trivial.
    exists s'. now repeat split.
Qed.

Lemma seed_keeps_invariants (s s' : Session) :
  wf_roles (roles s) -> no_foreign_default (roles s) ->
  Role.seed s = Return s' ->
  wf_roles (roles s') /\ no_foreign_default (roles s').
Proof.
  intros Hwf Hnfd. unfold Role.seed. cbn [map for_each].
  rewrite session_add_new_role.
  destruct (existsb (name_is "Guests") (roles s)) eqn:Hg; [discriminate |].
  cbn [bind]. rewrite session_add_new_role. cbn [roles].
  destruct (existsb (name_is "Administrator") _) eqn:Ha; [discriminate |].
  cbn [bind for_each]. intros [= <-]. cbn [session_commit roles]. split.
  - apply insert_row_wf; [now apply insert_row_wf | assumption].
  - intros r Hin Hl. apply in_app_or in Hin.
    destruct Hin as [Hin | [<- | []]]; [| reflexivity].
    apply in_app_or in Hin. destruct Hin as [Hin | [<- | []]]; [| reflexivity].
    now apply Hnfd.
Qed.

Lemma insert_roles_keeps_invariants (s s' : Session) :
  wf_roles (roles s) -> no_foreign_default (roles s) ->
  Role.insert_roles s = Return s' ->
  wf_roles (roles s') /\ no_foreign_default (roles s').
Proof.
  intros Hwf Hnfd. unfold Role.insert_roles.
  rewrite (insert_roles_from_upsert_all _ s Hwf). intros [= <-].
  cbn [session_commit set_roles roles]. split.
  - now apply (upsert_all_wf Role.roles_spec).
  - now apply upsert_all_no_foreign_default.
Qed.

Lemma bootstrapped_invariants (s : Session) :
  bootstrapped s -> wf_roles (roles s) /\ no_foreign_default (roles s).
Proof.
  induction 1 as [| s s' _ [Hwf Hnfd] Hseed | s s' _ [Hwf Hnfd] Hins].
  - split.
    + repeat split; cbn; try constructor. intros r [].
    + intros r [].
  - now apply (seed_keeps_invariants s s').
  - now apply (insert_roles_keeps_invariants s s').
Qed.

(** C3, as stated, fails: a catalog whose only role is a foreign one
    flagged default has two default roles after [insert_roles]. *)
Lemma insert_roles_keeps_foreign_default :
  let s := mkSession [mkRole (Some 1) (Some "Guests") (Some true) None]
                     [mkRole (Some 1) (Some "Guests") (Some true) None] [] [] in
  wf_roles (roles s)
  /\ exists s', Role.insert_roles s = Return s'
                /\ count_default (roles s') = 2%nat.
Proof.
  cbn zeta. split.
  - repeat split; cbn.
    + intros r [<- | []]. discriminate.
    + repeat constructor. intros [].
    + repeat constructor. intros [].
  - eexists. split; reflexivity.
Qed.

(** C3, amended: on a table that obeys the schema (keys set and unique,
    names unique) and in which no role other than the three of
    [insert_roles] is flagged default - every catalog that runs of [seed]
    and [insert_roles] build from an empty table is such - any number
    [k + 1] of runs of [insert_roles] succeeds, leaves the committed table
    that one run leaves, with exactly one default role, each of the three
    names on exactly one row with its bitmask and default flag, and the
    other rows as they were. *)
Theorem insert_roles_converges (s : Session) (k : nat) :
  wf_roles (roles s) ->
  no_foreign_default (roles s) ->
  exists s1 s',
    Role.insert_roles s = Return s1
    /\ insert_roles_times (S k) s = Return s'
    /\ roles s' = roles s1
    /\ committed_roles s' = roles s'
    /\ count_default (roles s') = 1%nat
    /\ (forall n p d,
           In (n, (p, d)) [("User", (0x07, true)); ("Moderare", (0x0f, false));
                           ("Administrator", (0xff, false))] ->
           exists r, filter (name_is n) (roles s') = [r]
                     /\ Role_permissions r = Some p
                     /\ Role_default r = Some d)
    /\ (forall r, listed Role.roles_spec r = false ->
                  (In r (roles s') <-> In r (roles s)))
    /\ wf_roles (roles s')
    /\ no_foreign_default (roles s').
Proof.
  intros Hwf Hnfd.
  set (T := upsert_all Role.roles_spec (roles s)).
  set (s1 := session_commit (set_roles T s)).
  assert (Hrun : Role.insert_roles s = Return s1)
    by (apply insert_roles_from_upsert_all; assumption).
  assert (HwfT : wf_roles T) by (now apply upsert_all_wf).
  assert (HsT : settled Role.roles_spec T)
    by (apply upsert_all_settled, roles_spec_names_NoDup).
  destruct (insert_roles_settled_times k s1 HwfT HsT eq_refl)
    as (s' & Hk & Hroles & Hcommitted).
  exists s1, s'. cbn [insert_roles_times]. rewrite Hrun. cbn [bind].
  change (roles s1) with T in *. rewrite Hroles.
  split; [reflexivity |]. split; [assumption |]. split; [reflexivity |].
  split; [congruence |]. split; [| split; [| split; [| split]]].
  - unfold count_default.
    rewrite (filter_ext_in default_is_true (name_is "User") T)
      by (intros r Hr; now apply (default_only_user (roles s))).
    destruct HsT as [Hhas _].
    specialize (Hhas ("User", (0x07, true)) (or_introl eq_refl)).
    apply existsb_exists in Hhas. destruct Hhas as (r & Hr & Hn).
    now rewrite (filter_name_single "User" T r (proj2 (proj2 HwfT)) Hr Hn).
  - intros n p d Hin. change (In (n, (p, d)) Role.roles_spec) in Hin.
    destruct HsT as [Hhas Hval].
    pose proof (Hhas _ Hin) as Hex. cbn [fst] in Hex.
    apply existsb_exists in Hex. destruct Hex as (r & Hr & Hn).
    exists r. split.
    + now apply filter_name_single; [apply HwfT | |].
    + destruct (Hval _ r Hin Hr Hn) as [Hd Hp]. now split.
  - intros r Hl. split.
    + intros Hin. now apply (upsert_all_other Role.roles_spec).
    + intros Hin. now apply upsert_all_keeps_other.
  - assumption.
  - now apply upsert_all_no_foreign_default.
Qed.

Example seed_empty : Role.seed empty_session = Return seeded_session.
Proof. reflexivity. Qed.

Lemma insert_roles_converges_witness :
  exists s1 s',
    Role.insert_roles seeded_session = Return s1
    /\ insert_roles_times 3 seeded_session = Return s'
    /\ roles s' = roles s1
    /\ count_default (roles s') = 1%nat.
Proof.
  assert (Hinv : wf_roles (roles seeded_session)
                 /\ no_foreign_default (roles seeded_session)).
  { split.
    - repeat split; cbn.
      + intros r [<- | [<- | []]]; discriminate.
      + repeat constructor; cbn; intuition discriminate.
      + repeat constructor; cbn; intuition discriminate.
    - intros r [<- | [<- | []]] _; reflexivity. }
  destruct (insert_roles_converges seeded_session 2 (proj1 Hinv) (proj2 Hinv))
    as (s1 & s' & H1 & H2 & H3 & _ & H5 & _).
  exists s1, s'. repeat split; assumption.
Defined.

(** The dictionary of [insert_roles] may be walked in any order: the
    table ends up well formed and settled all the same. *)
Lemma insert_roles_any_order (spec : list (string * (Z * bool))) (s : Session) :
  Permutation spec Role.roles_spec ->
  wf_roles (roles s) ->
  exists s1, Role.insert_roles_from spec s = Return s1
             /\ wf_roles (roles s1)
             /\ settled Role.roles_spec (roles s1).
Proof.
  intros Hperm Hwf. rewrite (insert_roles_from_upsert_all spec s Hwf).
  eexists. split; [reflexivity |]. cbn [session_commit set_roles roles].
  split; [now apply upsert_all_wf |].
  assert (Hnd : NoDup (map fst spec)).
  { apply (Permutation_NoDup (l := map fst Role.roles_spec)).
    - apply Permutation_map. now apply Permutation_sym.
    - apply roles_spec_names_NoDup. }
  destruct (upsert_all_settled spec (roles s) Hnd) as [Hhas Hval].
  split.
  - intros e He. apply Hhas.
    now apply (Permutation_in e (Permutation_sym Hperm)).
  - intros e r He. apply Hval.
    now apply (Permutation_in e (Permutation_sym Hperm)).
Qed.

(** ** Rendering of posts *)

Lemma on_body_changed_derives (markdown : string -> string)
  (clean : string -> list string -> bool -> string)
  (linkify : string -> string) (target : Post) (value : string) :
  Post_body_html (Post.on_body_changed markdown clean linkify target value)
  = Some (linkify (clean (markdown value) Post.allow_tags true))
  /\ List.length Post.allow_tags = 17%nat.
Proof. split; reflexivity. Qed.

(** * Further properties *)

(** ** How permission checks combine *)

(** [m & p = p] says that every bit of [p] is a bit of [m]. *)
Lemma land_eq_iff_bits (m p : Z) :
  Z.land m p = p
  <-> forall i, 0 <= i -> Z.testbit p i = true -> Z.testbit m i = true.
Proof.
  split.
  - intros Heq i Hi Hp. rewrite <- Heq, Z.land_spec in Hp.
    now apply andb_true_iff in Hp.
  - intros Hbits. apply Z.bits_inj'. intros i Hi. rewrite Z.land_spec.
    destruct (Z.testbit p i) eqn:Hp.
    + now rewrite (Hbits i Hi Hp).
    + apply andb_false_r.
Qed.

Lemma can_true_iff (u : User) (p : Z) :
  User.can u p = Return true
  <-> exists role m, User_itsrole u = Some role
                     /\ Role_permissions role = Some m
                     /\ Z.land m p = p.
Proof.
  unfold User.can. split.
  - destruct (User_itsrole u) as [role |]; [| discriminate].
    destruct (Role_permissions role) as [m |] eqn:Hm; [| discriminate].
    intros [= Heq]. apply Z.eqb_eq in Heq. eauto.
  - intros (role & m & -> & -> & Heq). f_equal. now apply Z.eqb_eq.
Qed.

(** Asking for a union of permissions is asking for each of them: for
    every user, [can (p | q)] is true exactly when [can p] and [can q]
    both are. *)
Theorem can_union (u : User) (p q : Z) :
  User.can u (Z.lor p q) = Return true
  <-> User.can u p = Return true /\ User.can u q = Return true.
Proof.
  rewrite !can_true_iff. split.
  - intros (role & m & Hrole & Hm & Heq).
    pose proof (proj1 (land_eq_iff_bits m (Z.lor p q)) Heq) as Hbits.
    split; exists role, m; repeat split; trivial;
      apply land_eq_iff_bits; intros i Hi Hp; apply (Hbits i Hi);
      rewrite Z.lor_spec, Hp; [reflexivity | apply orb_true_r].
  - intros [(role & m & Hrole & Hm & Hp) (role' & m' & Hrole' & Hm' & Hq)].
    assert (role' = role) as -> by congruence.
    assert (m' = m) as -> by congruence.
    exists role, m. repeat split; trivial.
    apply land_eq_iff_bits. intros i Hi Hpq. rewrite Z.lor_spec in Hpq.
    apply orb_true_iff in Hpq. destruct Hpq as [Hb | Hb].
    + now apply (proj1 (land_eq_iff_bits m p) Hp i Hi).
    + now apply (proj1 (land_eq_iff_bits m q) Hq i Hi).
Qed.

(** A role whose bitmask includes another role's bitmask grants whatever
    the other grants; the three roles of [insert_roles] are nested in
    this way, User within Moderare within Administrator. *)
Theorem can_grows_with_mask (u1 u2 : User) (r1 r2 : Role) (m1 m2 p : Z) :
  User_itsrole u1 = Some r1 -> Role_permissions r1 = Some m1 ->
  User_itsrole u2 = Some r2 -> Role_permissions r2 = Some m2 ->
  Z.land m2 m1 = m1 ->
  (User.can u1 p = Return true -> User.can u2 p = Return true)
  /\ map (fun e => fst (snd e)) Role.roles_spec = [0x07; 0x0f; 0xff]
  /\ Z.land 0x0f 0x07 = 0x07
  /\ Z.land 0xff 0x0f = 0x0f.
Proof.
  intros Hr1 Hm1 Hr2 Hm2 Hincl. split; [| repeat split].
  rewrite !can_true_iff.
  intros (role & m & Hrole & Hm & Hp).
  assert (role = r1) as -> by congruence.
  assert (m = m1) as -> by congruence.
  exists r2, m2. repeat split; trivial.
  apply land_eq_iff_bits. intros i Hi Hb.
  apply (proj1 (land_eq_iff_bits m2 m1) Hincl i Hi).
  now apply (proj1 (land_eq_iff_bits m1 p) Hp i Hi).
Qed.

Lemma can_grows_with_mask_witness :
  User.can (with_role administrator_role) Permission.COMMENT = Return true.
Proof.
  apply (proj1 (can_grows_with_mask (with_role user_role)
                  (with_role administrator_role) user_role administrator_role
                  0x07 0xff Permission.COMMENT
                  eq_refl eq_refl eq_refl eq_refl eq_refl)).
  reflexivity.
Defined.

Lemma byte_bits (p i : Z) :
  0 <= p <= 0xff -> 0 <= i -> Z.testbit p i = true ->
  Z.testbit 0xff i = true.
Proof.
  intros Hp Hi Hb. change 0xff with (Z.ones 8).
  destruct (Z.lt_ge_cases i 8) as [Hlt | Hge].
  - apply Z.ones_spec_low. lia.
  - exfalso. destruct (Z.eq_dec p 0) as [-> | Hnz].
    + now rewrite Z.bits_0 in Hb.
    + assert (Hlog : Z.log2 p < i).
      { apply Z.lt_le_trans with 8; [| assumption].
        apply Z.log2_lt_pow2; lia. }
      rewrite (Z.bits_above_log2 p i) in Hb; [discriminate | lia | assumption].
Qed.

(** [is_administrator] is true exactly when [can] grants every
    permission value from 0 to 0xFF, so an administrator passes every
    check on the defined bits and their unions. *)
Theorem is_administrator_iff_can_all (u : User) :
  User.is_administrator u = Return true
  <-> forall p, 0 <= p <= 0xff -> User.can u p = Return true.
Proof.
  unfold User.is_administrator, Permission.ADMINISTRATOR. split.
  - intros Hadmin p Hp. apply can_true_iff in Hadmin.
    destruct Hadmin as (role & m & Hrole & Hm & Hall).
    apply can_true_iff. exists role, m. repeat split; trivial.
    apply land_eq_iff_bits. intros i Hi Hb.
    apply (proj1 (land_eq_iff_bits m 0xff) Hall i Hi).
    now apply (byte_bits p i).
  - intros Hall. apply Hall. lia.
Qed.

(** ** What [insert_roles] and [seed] do to the table *)

Lemma ident_revise (e : string * (Z * bool)) (x : Role) :
  ident (revise e x) = ident x.
Proof. unfold ident. now rewrite revise_id, revise_name. Qed.

Lemma ident_upsert (e : string * (Z * bool)) (tbl : list Role) :
  map ident (upsert e tbl)
  = map ident tbl
    ++ (if existsb (name_is (fst e)) tbl then []
        else [(Some (fresh_id tbl), Some (fst e))]).
Proof.
  unfold upsert. destruct (existsb (name_is (fst e)) tbl).
  - rewrite app_nil_r, map_map. apply map_ext. intros x. apply ident_revise.
  - now rewrite map_app.
Qed.

Lemma existsb_name_upsert (e : string * (Z * bool)) (tbl : list Role)
  (n : string) :
  existsb (name_is n) (upsert e tbl)
  = existsb (name_is n) tbl || String.eqb (fst e) n.
Proof.
  apply eq_true_iff_eq. rewrite orb_true_iff, !existsb_name_is, names_upsert.
  rewrite String.eqb_eq.
  destruct (existsb (name_is (fst e)) tbl) eqn:Hex.
  - split; [tauto |]. intros [Hin | <-]; [assumption |].
    now apply existsb_name_is.
  - rewrite in_app_iff. cbn [In]. tauto.
Qed.

Lemma missing_upsert (spec : list (string * (Z * bool)))
  (e : string * (Z * bool)) (tbl : list Role) :
  ~ In (fst e) (map fst spec) ->
  missing spec (upsert e tbl) = missing spec tbl.
Proof.
  intros Hnotin. unfold missing. apply filter_ext_in. intros n Hn.
  rewrite existsb_name_upsert.
  destruct (String.eqb_spec (fst e) n) as [Heq | _].
  - rewrite Heq in Hnotin. contradiction.
  - now rewrite orb_false_r.
Qed.

Lemma missing_cons (e : string * (Z * bool))
  (spec : list (string * (Z * bool))) (tbl : list Role) :
  missing (e :: spec) tbl
  = (if existsb (name_is (fst e)) tbl then [] else [fst e])
    ++ missing spec tbl.
Proof.
  unfold missing. cbn [map filter].
  now destruct (existsb (name_is (fst e)) tbl).
Qed.

(** The rows that the loop appends: one per missing name, in the order
    of the dictionary. *)
Lemma ident_upsert_all (spec : list (string * (Z * bool))) (tbl : list Role) :
  NoDup (map fst spec) ->
  exists keys,
    map ident (upsert_all spec tbl)
    = map ident tbl ++ combine (map Some keys) (map Some (missing spec tbl))
    /\ List.length keys = List.length (missing spec tbl).
Proof.
  revert tbl. induction spec as [| e spec IH]; intros tbl Hnd.
  - exists []. cbn. now rewrite app_nil_r.
  - cbn [map] in Hnd. inversion Hnd as [| ? ? Hfresh Hnd']. subst.
    cbn [upsert_all fold_left].
    destruct (IH (upsert e tbl) Hnd') as (keys & Heq & Hlen).
    fold (upsert_all spec (upsert e tbl)). rewrite Heq, ident_upsert.
    rewrite (missing_upsert spec e tbl Hfresh) in *.
    rewrite missing_cons.
    destruct (existsb (name_is (fst e)) tbl).
    + exists keys. now rewrite app_nil_r.
    + exists (fresh_id tbl :: keys). cbn [app map combine List.length].
      rewrite <- app_assoc. split; [reflexivity | now rewrite Hlen].
Qed.

(** On a table that obeys the schema, [insert_roles] returns; it keeps
    every row in place with its key and its name, and appends one row
    for each of its three names that the table lacks, so the table grows
    by exactly the number of missing names. *)
Theorem insert_roles_keeps_rows (s : Session) :
  wf_roles (roles s) ->
  exists s' keys,
    Role.insert_roles s = Return s'
    /\ map ident (roles s')
       = map ident (roles s)
         ++ combine (map Some keys)
                    (map Some (missing Role.roles_spec (roles s)))
    /\ List.length (roles s')
       = (List.length (roles s)
          + List.length (missing Role.roles_spec (roles s)))%nat
    /\ (List.length (missing Role.roles_spec (roles s)) <= 3)%nat.
Proof.
  intros Hwf. unfold Role.insert_roles.
  rewrite (insert_roles_from_upsert_all _ s Hwf).
  destruct (ident_upsert_all Role.roles_spec (roles s) roles_spec_names_NoDup)
    as (keys & Heq & Hlen).
  eexists. exists keys. split; [reflexivity |].
  cbn [session_commit set_roles roles]. split; [exact Heq |]. split.
  - rewrite <- (length_map ident), Heq, length_app, length_map.
    rewrite length_combine, !length_map, Hlen. lia.
  - unfold missing. etransitivity; [apply filter_length_le |]. reflexivity.
Qed.

Lemma insert_roles_keeps_rows_witness :
  exists s' keys,
    Role.insert_roles seeded_session = Return s'
    /\ map ident (roles s')
       = map ident (roles seeded_session)
         ++ combine (map Some keys)
                    (map Some (missing Role.roles_spec (roles seeded_session)))
    /\ List.length (roles s')
       = (List.length (roles seeded_session)
          + List.length (missing Role.roles_spec (roles seeded_session)))%nat
    /\ (List.length (missing Role.roles_spec (roles seeded_session)) <= 3)%nat.
Proof.
  apply insert_roles_keeps_rows.
  repeat split; cbn.
  - intros r [<- | [<- | []]]; discriminate.
  - repeat constructor; cbn; intuition discriminate.
  - repeat constructor; cbn; intuition discriminate.
Defined.

Lemma existsb_name_snoc (n : string) (tbl : list Role) (r : Role) :
  existsb (name_is n) (tbl ++ [r]) = existsb (name_is n) tbl || name_is n r.
Proof. rewrite existsb_app. cbn [existsb]. now rewrite orb_false_r. Qed.

Lemma seed_outcome (s : Session) :
  Role.seed s
  = if existsb (name_is "Guests") (roles s)
       || existsb (name_is "Administrator") (roles s)
    then Raise IntegrityError
    else
      let guests := mkRole (Some (fresh_id (roles s))) (Some "Guests")
                           (Some false) None in
      let admin := mkRole (Some (fresh_id (roles s ++ [guests])))
                          (Some "Administrator") (Some false) None in
      Return (session_commit (set_roles (roles s ++ [guests; admin]) s)).
Proof.
  unfold Role.seed. cbn [map for_each].
  rewrite session_add_new_role.
  destruct (existsb (name_is "Guests") (roles s)) eqn:Hg; [reflexivity |].
  cbn [bind orb]. rewrite session_add_new_role. cbn [roles].
  rewrite existsb_name_snoc.
  match goal with
  | |- context [name_is "Administrator" (mkRole ?i ?n ?d ?p)] =>
      change (name_is "Administrator" (mkRole i n d p)) with false
  end.
  rewrite orb_false_r.
  destruct (existsb (name_is "Administrator") (roles s)); [reflexivity |].
  cbn [bind for_each]. unfold session_commit, set_roles. cbn [roles staged saved].
  now rewrite <- app_assoc.
Qed.

(** [seed] raises an integrity error exactly when the table already has
    a role named Guests or Administrator; so it cannot run twice, and it
    cannot run after [insert_roles] on a table that obeys the schema. *)
Theorem seed_runs_once (s : Session) :
  (Role.seed s = Raise IntegrityError
   <-> existsb (name_is "Guests") (roles s)
       || existsb (name_is "Administrator") (roles s) = true)
  /\ (forall s', Role.seed s = Return s' ->
                 Role.seed s' = Raise IntegrityError)
  /\ (forall s', wf_roles (roles s) -> Role.insert_roles s = Return s' ->
                 Role.seed s' = Raise IntegrityError).
Proof.
  split; [| split].
  - rewrite seed_outcome.
    destruct (existsb (name_is "Guests") (roles s)
              || existsb (name_is "Administrator") (roles s));
      split; congruence.
  - intros s'. rewrite (seed_outcome s).
    destruct (existsb (name_is "Guests") (roles s)
              || existsb (name_is "Administrator") (roles s));
      [discriminate |].
    cbn zeta. intros [= <-]. rewrite seed_outcome.
    cbn [session_commit set_roles roles].
    rewrite existsb_app. cbn [existsb].
    match goal with
    | |- context [name_is "Guests" (mkRole ?i (Some "Guests") ?d ?p)] =>
        change (name_is "Guests" (mkRole i (Some "Guests") d p)) with true
    end.
    cbn [orb]. now rewrite orb_true_r.
  - intros s' Hwf. unfold Role.insert_roles.
    rewrite (insert_roles_from_upsert_all _ s Hwf). intros Heq.
    assert (Hroles : roles s' = upsert_all Role.roles_spec (roles s))
      by (injection Heq as <-; reflexivity).
    assert (Hadmin : existsb (name_is "Administrator")
                             (upsert_all Role.roles_spec (roles s)) = true).
    { apply (upsert_all_has Role.roles_spec (roles s)
               ("Administrator", (0xff, false))). cbn. tauto. }
    rewrite seed_outcome, Hroles, Hadmin. now rewrite orb_true_r.
Qed.

Lemma seed_runs_once_witness :
  Role.seed seeded_session = Raise IntegrityError.
Proof.
  apply (proj1 (proj2 (seed_runs_once empty_session))). reflexivity.
Defined.

Lemma find_app_none {A : Type} (f : A -> bool) (l l' : list A) :
  (forall x, In x l' -> f x = false) -> find f (l ++ l') = find f l.
Proof.
  intros Hnone. induction l as [| a l IH]; cbn [app find].
  - destruct (find f l') as [x |] eqn:Hfind; [| reflexivity].
    apply find_some in Hfind. destruct Hfind as [Hin Hx].
    now rewrite (Hnone x Hin) in Hx.
  - now destruct (f a).
Qed.

(** The roles that [seed] adds are never picked for a new user: after a
    successful [seed] the constructor assigns the role it would have
    assigned before. *)
Theorem seed_changes_no_new_user (config : Config) (s s' : Session)
  (u : User) :
  Role.seed s = Return s' ->
  User.init config s' u = User.init config s u.
Proof.
  rewrite seed_outcome.
  destruct (existsb (name_is "Guests") (roles s)
            || existsb (name_is "Administrator") (roles s)); [discriminate |].
  cbn zeta. intros [= <-]. unfold User.init, query_first.
  cbn [session_commit set_roles roles].
  rewrite !find_app_none; [reflexivity | |];
    intros x [<- | [<- | []]]; reflexivity.
Qed.

Lemma seed_changes_no_new_user_witness :
  User.init sample_config seeded_session (with_email "ann@example.com")
  = User.init sample_config empty_session (with_email "ann@example.com").
Proof.
  apply seed_changes_no_new_user. reflexivity.
Defined.

(** ** New users *)

(** A role given to the constructor is never replaced, whatever the
    email; and building a user is idempotent: running the role
    assignment again on its result changes nothing. *)
Theorem init_keeps_given_role (config : Config) (s : Session) (u : User) :
  (forall r, User_itsrole u = Some r -> User.init config s u = u)
  /\ User.init config s (User.init config s u) = User.init config s u.
Proof.
  split.
  - intros r Hr. unfold User.init. now rewrite Hr.
  - unfold User.init. destruct (User_itsrole u) as [r |] eqn:Hr.
    + now rewrite Hr.
    + destruct (opt_string_eqb (User_email u) (FLASK_ADMIN config)) eqn:Hadmin;
        cbn [User.set_itsrole User_itsrole User_email].
      * destruct (query_first (permissions_is 0xff) s); [reflexivity |].
        now rewrite Hadmin.
      * destruct (query_first default_is_true s); [reflexivity |].
        now rewrite Hadmin.
Qed.

Lemma init_keeps_given_role_witness :
  User.init sample_config sample_session
            (User.set_itsrole (Some user_role) (with_email "admin@example.com"))
  = User.set_itsrole (Some user_role) (with_email "admin@example.com").
Proof.
  apply (proj1 (init_keeps_given_role sample_config sample_session
                  (User.set_itsrole (Some user_role)
                                    (with_email "admin@example.com")))
               user_role).
  reflexivity.
Defined.

Lemma seeded_session_invariants :
  wf_roles (roles seeded_session) /\ no_foreign_default (roles seeded_session).
Proof.
  apply bootstrapped_invariants.
  apply (boot_seed empty_session); [constructor | reflexivity].
Qed.

(** Once [insert_roles] has run on a table that obeys the schema and has
    no other default role, a user built without a role and with an
    ordinary email gets the role named User: such a user may follow,
    comment and write articles, may not moderate comments and is no
    administrator.  A user built with the administrator's email is an
    administrator. *)
Theorem new_user_after_insert_roles (config : Config) (s s1 : Session)
  (u : User) :
  wf_roles (roles s) ->
  no_foreign_default (roles s) ->
  Role.insert_roles s = Return s1 ->
  User_itsrole u = None ->
  (User_email u <> FLASK_ADMIN config ->
   (exists r, User_itsrole (User.init config s1 u) = Some r
              /\ Role_name r = Some "User"
              /\ Role_permissions r = Some 0x07)
   /\ User.can (User.init config s1 u) Permission.FOLLOW = Return true
   /\ User.can (User.init config s1 u) Permission.COMMENT = Return true
   /\ User.can (User.init config s1 u) Permission.WRITE_ARTICLES = Return true
   /\ User.can (User.init config s1 u) Permission.MODERATE_COMMENTS
      = Return false
   /\ User.is_administrator (User.init config s1 u) = Return false)
  /\ (User_email u = FLASK_ADMIN config ->
      User.is_administrator (User.init config s1 u) = Return true).
Proof.
  intros Hwf Hnfd Hrun Hnone.
  unfold Role.insert_roles in Hrun.
  rewrite (insert_roles_from_upsert_all _ s Hwf) in Hrun.
  assert (Hroles : roles s1 = upsert_all Role.roles_spec (roles s))
    by (injection Hrun as <-; reflexivity).
  clear Hrun.
  destruct (upsert_all_settled Role.roles_spec (roles s)
              roles_spec_names_NoDup) as [Hhas Hval].
  unfold User.init. rewrite Hnone. split.
  - intros Hne.
    assert (Hadmin : opt_string_eqb (User_email u) (FLASK_ADMIN config) = false).
    { apply not_true_is_false. intros H. now apply opt_string_eqb_eq in H. }
    rewrite Hadmin. unfold query_first. rewrite Hroles.
    destruct (find default_is_true (upsert_all Role.roles_spec (roles s)))
      as [r |] eqn:Hfind.
    + destruct (find_some _ _ Hfind) as [Hin Hdef].
      rewrite (default_only_user (roles s) r Hnfd Hin) in Hdef.
      destruct (Hval ("User", (0x07, true)) r (or_introl eq_refl) Hin Hdef)
        as [_ Hperm]. cbn [fst snd] in Hperm.
      assert (Hcan : forall p,
                 User.can (User.set_itsrole (Some r) u) p
                 = Return (Z.land 0x07 p =? p))
        by (intros p; now apply can_with_mask with (role := r)).
      split; [| unfold User.is_administrator; rewrite !Hcan; now repeat split].
      exists r. repeat split; trivial. now apply name_is_iff.
    + exfalso.
      pose proof (Hhas ("User", (0x07, true)) (or_introl eq_refl)) as Hex.
      apply existsb_exists in Hex. destruct Hex as (r & Hin & Hn).
      pose proof (find_none _ _ Hfind r Hin) as Hdef.
      rewrite (default_only_user (roles s) r Hnfd Hin) in Hdef.
      cbn [fst] in Hn. congruence.
  - intros Heq. apply opt_string_eqb_eq in Heq. rewrite Heq.
    unfold query_first. rewrite Hroles.
    destruct (find (permissions_is 0xff)
                   (upsert_all Role.roles_spec (roles s))) as [r |] eqn:Hfind.
    + destruct (find_some _ _ Hfind) as [_ Hperm].
      apply permissions_is_iff in Hperm. unfold User.is_administrator.
      now rewrite (can_with_mask (User.set_itsrole (Some r) u) r 0xff _
                     eq_refl Hperm).
    + exfalso.
      assert (Hin3 : In ("Administrator", (0xff, false)) Role.roles_spec)
        by (cbn; tauto).
      pose proof (Hhas _ Hin3) as Hex.
      apply existsb_exists in Hex. destruct Hex as (r & Hin & Hn).
      destruct (Hval _ r Hin3 Hin Hn) as [_ Hperm]. cbn [fst snd] in Hperm.
      pose proof (find_none _ _ Hfind r Hin) as Hnot.
      apply permissions_is_iff in Hperm. congruence.
Qed.

Lemma new_user_after_insert_roles_witness :
  exists s1,
    Role.insert_roles seeded_session = Return s1
    /\ User.can (User.init sample_config s1 (with_email "ann@example.com"))
                Permission.MODERATE_COMMENTS = Return false
    /\ User.is_administrator
         (User.init sample_config s1 (with_email "admin@example.com"))
       = Return true.
Proof.
  eexists. split; [reflexivity |]. split.
  - apply (proj1 (new_user_after_insert_roles sample_config seeded_session _
                    (with_email "ann@example.com")
                    (proj1 seeded_session_invariants)
                    (proj2 seeded_session_invariants) eq_refl eq_refl)).
    discriminate.
  - apply (proj2 (new_user_after_insert_roles sample_config seeded_session _
                    (with_email "admin@example.com")
                    (proj1 seeded_session_invariants)
                    (proj2 seeded_session_invariants) eq_refl eq_refl)).
    reflexivity.
Defined.

Lemma insert_roles_any_order_witness :
  exists s1,
    Role.insert_roles_from (rev Role.roles_spec) seeded_session = Return s1
    /\ wf_roles (roles s1)
    /\ settled Role.roles_spec (roles s1).
Proof.
  apply insert_roles_any_order.
  - apply Permutation_sym, Permutation_rev.
  - apply seeded_session_invariants.
Defined.

(** ** More on confirmation tokens *)


Section ConfirmMore.
Context {serializer : Serializer}.
Variable config : Config.



(** Whatever the token, a false answer leaves the user and the session
    untouched.  A true answer means that the user is confirmed and
    saved, in place of any row of the same key and beside every other
    row, with its profile and every attribute it had set: for a user that
    came from the table, [confirmed] is the only attribute that can
    differ.  [confirm] never unconfirms. *)
Theorem confirm_only_confirms (now : Z) (u u' : User) (t : token)
  (s s' : Session) (b : bool) :
  User.confirm config now u t s = Return (b, u', s') ->
  (b = false -> u' = u /\ s' = s)
  /\ (b = true ->
      User_confirmed u' = Some true
      /\ kept (User.set_confirmed (Some true) u) u'
      /\ (stored u s = true -> linked u = true ->
          u' = User.set_confirmed (Some true) u)
      /\ saved s' = u' :: other_rows (key_for u s) (users s)
      /\ staged s' = [])
  /\ (User_confirmed u = Some true -> User_confirmed u' = Some true).
Proof.
  unfold User.confirm.
  destruct (loads (SECRET_KEY config) now t) as [data | e].
  - destruct (py_get data "confirm") as [v | e]; [| discriminate].
    cbn [bind]. destruct (py_ne v (User_id u)).
    + intros [= <- <- <-]. repeat split; try discriminate; trivial.
    + pose proof (confirm_write now u s) as Hwrite.
      destruct (writable u s).
      * destruct Hwrite as (v' & s0 & -> & Hc & Hkey & Hkept & Hcommit & Hex & _).
        cbn [bind fst snd]. intros [= <- <- <-].
        split; [discriminate |]. split; [| now intros _].
        intros _. split; [exact Hc |]. split; [exact Hkept |].
        split; [intros Hs Hl; now destruct (Hex Hs Hl) |].
        rewrite Hcommit. now split.
      * rewrite Hwrite. discriminate.
  - intros [= <- <- <-]. repeat split; try discriminate; trivial.
Qed.

End ConfirmMore.



Lemma confirm_only_confirms_witness :
  User_confirmed (User.set_confirmed (Some true) row_2) = Some true
  /\ kept (User.set_confirmed (Some true) row_2)
          (User.set_confirmed (Some true) row_2)
  /\ (stored row_2 session_with_2 = true -> linked row_2 = true ->
      User.set_confirmed (Some true) row_2
      = User.set_confirmed (Some true) row_2)
  /\ saved (mkSession [] [] [] [User.set_confirmed (Some true) row_2])
     = User.set_confirmed (Some true) row_2
         :: other_rows (key_for row_2 session_with_2) (users session_with_2)
  /\ staged (mkSession [] [] [] [User.set_confirmed (Some true) row_2]) = [].
Proof.
  apply (proj1 (proj2
           (@confirm_only_confirms sym_serializer sample_config 60 row_2
              (User.set_confirmed (Some true) row_2)
              (token_of 0 row_2) session_with_2
              (mkSession [] [] [] [User.set_confirmed (Some true) row_2])
              true eq_refl))).
  reflexivity.
Defined.

(** ** Last visit *)



(** ** Changing a password *)

(** A second assignment to [password] replaces the first without trace:
    the user is the one that the second assignment alone would give, so
    the new password verifies and the old one is judged against the hash
    of the new one: it verifies only with the derived key of the new
    password under the new salt.  A user that never had a password
    cannot be verified: the call raises. *)
Theorem password_change (iterations : positive) (u : User)
  (draws1 draws2 old new : string) :
  @User.password_setter (werkzeug iterations) draws2
     (@User.password_setter (werkzeug iterations) draws1 u old) new
  = @User.password_setter (werkzeug iterations) draws2 u new
  /\ @User.verify_password (werkzeug iterations)
        (@User.password_setter (werkzeug iterations) draws2
           (@User.password_setter (werkzeug iterations) draws1 u old) new)
        new
     = Return true
  /\ @User.verify_password (werkzeug iterations)
        (@User.password_setter (werkzeug iterations) draws2
           (@User.password_setter (werkzeug iterations) draws1 u old) new)
        old
     = Return (String.eqb (pbkdf2_hex old (gen_salt draws2) iterations)
                          (pbkdf2_hex new (gen_salt draws2) iterations))
  /\ (User_password_hash u = None ->
      forall s, @User.verify_password (werkzeug iterations) u s
                = Raise AttributeError).
Proof.
  assert (Hlast : @User.password_setter (werkzeug iterations) draws2
                    (@User.password_setter (werkzeug iterations) draws1 u old)
                    new
                  = @User.password_setter (werkzeug iterations) draws2 u new)
    by reflexivity.
  split; [exact Hlast |]. rewrite Hlast.
  split; [now apply verify_same_key_block |].
  split; [apply verify_after_setter |].
  intros Hnone s. unfold User.verify_password. now rewrite Hnone.
Qed.

Lemma password_change_witness :
  @User.verify_password (werkzeug 1) blank_user "cat" = Raise AttributeError
  /\ @User.verify_password (werkzeug 1)
        (@User.password_setter (werkzeug 1) "draws two"
           (@User.password_setter (werkzeug 1) "draws one" blank_user "cat")
           "dog")
        "cat"
     = Return false.
Proof.
  split.
  - apply (proj2 (proj2 (proj2 (password_change 1 blank_user "draws one"
                                  "draws two" "cat" "dog")))).
    reflexivity.
  - rewrite (proj1 (proj2 (proj2 (password_change 1 blank_user "draws one"
                                    "draws two" "cat" "dog")))).
    vm_compute. reflexivity.
Defined.

(** ** Posts *)

Section Bodies.
Variable markdown : string -> string.
Variable clean : string -> list string -> bool -> string.
Variable linkify : string -> string.

Lemma assign_body_fields (p : Post) (vs : list string) :
  Post_id (fold_left (assign_body markdown clean linkify) vs p) = Post_id p
  /\ Post_timestamp (fold_left (assign_body markdown clean linkify) vs p)
     = Post_timestamp p
  /\ Post_author_id (fold_left (assign_body markdown clean linkify) vs p)
     = Post_author_id p.
Proof.
  revert p. induction vs as [| v vs IH]; intros p; [now repeat split |].
  cbn [fold_left]. destruct (IH (assign_body markdown clean linkify p v))
    as (H1 & H2 & H3).
  rewrite H1, H2, H3. now repeat split.
Qed.

(** After any sequence of assignments to [body], [body_html] is the
    rendering of the body assigned last, never of an earlier one, and
    the identity, timestamp and author of the post are untouched. *)
Theorem body_html_follows_body (p : Post) (vs : list string) (v : string) :
  Post_body (fold_left (assign_body markdown clean linkify) (vs ++ [v]) p)
  = Some v
  /\ Post_body_html
       (fold_left (assign_body markdown clean linkify) (vs ++ [v]) p)
     = Some (linkify (clean (markdown v) Post.allow_tags true))
  /\ Post_id (fold_left (assign_body markdown clean linkify) (vs ++ [v]) p)
     = Post_id p
  /\ Post_timestamp
       (fold_left (assign_body markdown clean linkify) (vs ++ [v]) p)
     = Post_timestamp p
  /\ Post_author_id
       (fold_left (assign_body markdown clean linkify) (vs ++ [v]) p)
     = Post_author_id p.
Proof.
  split; [| split].
  - now rewrite fold_left_app.
  - now rewrite fold_left_app.
  - apply assign_body_fields.
Qed.

End Bodies.

(** ** More on avatar URLs *)

Lemma hex_digit_is_hex (n : Z) :
  0 <= n < 16 -> is_hex_digit (MD5.hex_digit n) = true.
Proof.
  intros Hn.
  assert (Hall : forallb (fun k => is_hex_digit (MD5.hex_digit (Z.of_nat k)))
                         (seq 0 16) = true) by reflexivity.
  rewrite forallb_forall in Hall.
  rewrite <- (Z2Nat.id n) by lia. apply Hall, in_seq. lia.
Qed.

Lemma hex_all_hex (bs : list Z) :
  (forall b, In b bs -> 0 <= b < 256) ->
  Forall (fun c => is_hex_digit c = true) (list_ascii_of_string (MD5.hex bs)).
Proof.
  induction bs as [| b bs IH]; intros Hrange; [constructor |].
  cbn [MD5.hex list_ascii_of_string].
  assert (Hb : 0 <= b < 256) by (apply Hrange; now left).
  constructor; [| constructor].
  - apply hex_digit_is_hex. rewrite Z.shiftr_div_pow2 by lia.
    change (2 ^ 4) with 16. split.
    + apply Z.div_pos; lia.
    + apply Z.div_lt_upper_bound; lia.
  - apply hex_digit_is_hex. change 0xf with (Z.ones 4).
    rewrite Z.land_ones by lia. apply Z.mod_pos_bound. reflexivity.
  - apply IH. intros b' Hin. apply Hrange. now right.
Qed.

Lemma le_bytes_range (n : nat) (x b : Z) :
  In b (MD5.le_bytes n x) -> 0 <= b < 256.
Proof.
  revert x. induction n as [| n IH]; intros x; [contradiction |].
  cbn [MD5.le_bytes]. intros [<- | Hin].
  - change 0xff with (Z.ones 8). rewrite Z.land_ones by lia.
    apply Z.mod_pos_bound. reflexivity.
  - now apply (IH (Z.shiftr x 8)).
Qed.

Lemma hexdigest_all_hex (s : string) :
  Forall (fun c => is_hex_digit c = true)
         (list_ascii_of_string (MD5.hexdigest s)).
Proof.
  unfold MD5.hexdigest, MD5.digest. apply hex_all_hex.
  destruct (fold_left MD5.compress _ MD5.init) as [[[a b] c] d].
  intros x Hin. rewrite !in_app_iff in Hin.
  destruct Hin as [Hin | [Hin | [Hin | Hin]]];
    now apply le_bytes_range in Hin.
Qed.

(** [gravatar] raises an attribute error for a user without email.  For
    a user with an email, the secure and the insecure URL differ in the
    host alone, neither depends on any other attribute of the user, and
    the hash in them is made of the digits 0-9 and the letters a-f only. *)
Theorem gravatar_edges (u : User) (size : Z) (default rating : string) :
  (User_email u = None ->
   forall is_secure,
     User.gravatar is_secure u size default rating = Raise AttributeError)
  /\ (forall e, User_email u = Some e ->
        exists tail,
          User.gravatar true u size default rating
          = Return ("https://secure.gravatar.com/avatar" ++ tail)%string
          /\ User.gravatar false u size default rating
             = Return ("http://www.gravatar.com/avatar" ++ tail)%string
          /\ (forall is_secure v, User_email v = Some e ->
                User.gravatar is_secure v size default rating
                = User.gravatar is_secure u size default rating)
          /\ Forall (fun c => is_hex_digit c = true)
                    (list_ascii_of_string (MD5.hexdigest e))).
Proof.
  split.
  - intros Hnone is_secure. unfold User.gravatar. now rewrite Hnone.
  - intros e He. unfold User.gravatar, User.gravatar_url. rewrite He.
    eexists. split; [reflexivity |]. split; [reflexivity |]. split.
    + intros is_secure v Hv. now rewrite Hv.
    + apply hexdigest_all_hex.
Qed.

Lemma gravatar_edges_witness :
  (forall is_secure,
      User.gravatar is_secure blank_user 100 "identicon" "g"
      = Raise AttributeError)
  /\ Forall (fun c => is_hex_digit c = true)
            (list_ascii_of_string (MD5.hexdigest "a@b.c")).
Proof.
  split.
  - apply (proj1 (gravatar_edges blank_user 100 "identicon" "g")). reflexivity.
  - destruct (proj2 (gravatar_edges (with_email "a@b.c") 100 "identicon" "g")
                    "a@b.c" eq_refl) as (tail & _ & _ & _ & Hhex).
    exact Hhex.
Defined.

(** ** Instances of the statements above *)

Lemma can_union_witness :
  User.can (with_role user_role)
           (Z.lor Permission.FOLLOW Permission.WRITE_ARTICLES)
  = Return true.
Proof.
  apply (proj2 (can_union (with_role user_role) Permission.FOLLOW
                          Permission.WRITE_ARTICLES)).
  split; reflexivity.
Defined.

Lemma is_administrator_iff_can_all_witness :
  User.can (with_role administrator_role) 0x05 = Return true.
Proof.
  apply (proj1 (is_administrator_iff_can_all (with_role administrator_role))).
  - reflexivity.
  - lia.
Defined.
